(** * MAGiC genetic circuit designer: parameter overrides, circuit assembly,
      regulation resolution, ODE set-up and the board state

    The repository's JavaScript front end is embedded from
    [static/js/eeprom.js] and [static/js/script.js].  The Python back end
    ([app.py], [circuit_model.py]) is embedded from the listings of it that
    the architecture notes and the developer guide reproduce; every
    definition names the listing it follows.

    Numbers are IEEE-754 binary64 values ([float]), as Python floats and
    JavaScript numbers are.  Python dicts whose iteration order cannot
    change the result are finite maps ([gmap]); JSON objects and JavaScript
    objects that are iterated in insertion order are association lists. *)

From Stdlib Require Import Floats Ascii.
From stdpp Require Import gmap strings list fin_maps pretty.

Set Warnings "-inexact-float".

Open Scope string_scope.

(** ** Python string and number primitives *)

Module Py.

(** [s.startswith(p)] *)
Definition startswith (p s : string) : bool := String.prefix p s.

(** [sub in s] *)
Definition contains (sub s : string) : bool :=
  match String.index 0 sub s with
  | Some _ => true
  | None => false
  end.

(** [s.replace(old, new)] for a non-empty [old]: non-overlapping
    occurrences, leftmost first.  The fuel bounds the number of characters
    still to scan. *)
Fixpoint replace_fuel (fuel : nat) (old new s : string) : string :=
  match fuel with
  | O => s
  | S fuel' =>
      if String.prefix old s
      then new ++ replace_fuel fuel' old new
             (String.substring (String.length old)
                (String.length s - String.length old) s)
      else match s with
           | EmptyString => EmptyString
           | String c rest => String c (replace_fuel fuel' old new rest)
           end
  end.

Definition replace (old new s : string) : string :=
  match old with
  | EmptyString => s
  | _ => replace_fuel (S (String.length s)) old new s
  end.

(** [x ** n] for an integer exponent [n >= 0] held by the registry
    ("n": 2): repeated multiplication, which agrees with the C library's
    [pow] whenever the exact power is representable. *)
Fixpoint pow (x : float) (n : nat) : float :=
  match n with
  | O => 1%float
  | S O => x
  | S n' => (x * pow x n')%float
  end.

(** [str(x)] of an optional string: [None] prints as "None". *)
Definition str_opt (x : option string) : string :=
  match x with
  | Some s => s
  | None => "None"
  end.

End Py.

(** ** Parameter override resolution

    [app.py], the [/simulate] endpoint, as listed in the architecture notes
    ("Complete Override Code Flow").  The listing elides the branches for
    the remaining per-instance keys ("similar for rbs, translation_rate,
    etc."); the two it shows are embedded. *)

Module Overrides.

(** One value of [COMPONENT_CONSTANTS]: its "type" string and its numeric
    fields ("strength", "efficiency", "degradation_rate", ...). *)
Record entry : Type := Entry {
  e_type : option string;
  e_fields : gmap string float
}.

(** The JSON body of the request: [data.get('dial', {})] and
    [data.get('apply_dial', True)]. *)
Record request : Type := Request {
  req_dial : option (list (string * float));
  req_apply_dial : option bool
}.

Definition dial_of (data : request) : list (string * float) :=
  default [] (req_dial data).

Definition apply_dial_of (data : request) : bool :=
  default true (req_apply_dial data).

(** Truth value of a dict: non-empty. *)
Definition truthy (dial : list (string * float)) : bool :=
  match dial with
  | [] => false
  | _ :: _ => true
  end.

(** [dial_data.get(key, dflt)] *)
Fixpoint dial_get (key : string) (dflt : float) (dial : list (string * float))
  : float :=
  match dial with
  | [] => dflt
  | (k, v) :: rest => if String.eqb k key then v else dial_get key dflt rest
  end.

(** One iteration of the PRIORITY 1 loop: the component key and the
    one-field dict that [component_overrides[comp_key]] is set to. *)
Definition parse_override (param_name : string) (value : float)
  : option (string * gmap string float) :=
  if Py.startswith "promoter" param_name && Py.contains "_strength" param_name
  then
    let comp_num :=
      Py.replace "_strength" "" (Py.replace "promoter" "" param_name) in
    Some ("promoter_" ++ comp_num, {[ "strength" := value ]})
  else if Py.startswith "cds" param_name
          && Py.contains "_degradation_rate" param_name
  then
    let comp_num :=
      Py.replace "_degradation_rate" "" (Py.replace "cds" "" param_name) in
    Some ("cds_" ++ comp_num, {[ "degradation_rate" := value ]})
  else None.

Definition collect_step (acc : gmap string (gmap string float))
    (kv : string * float) : gmap string (gmap string float) :=
  match parse_override (fst kv) (snd kv) with
  | Some (comp_key, ov) => <[comp_key := ov]> acc
  | None => acc
  end.

(** [for param_name, value in dial_data.items(): ...] *)
Definition component_overrides (dial : list (string * float))
  : gmap string (gmap string float) :=
  foldl collect_step ∅ dial.

(** [adjusted_constants[comp_name][param] = value] for every [param] of
    [overrides]. *)
Definition override_entry (overrides : gmap string float) (e : entry) : entry :=
  Entry (e_type e) (overrides ∪ e_fields e).

(** "Apply individual overrides": [alter] leaves an absent key alone, which
    is the [if comp_name in adjusted_constants] guard. *)
Definition apply_component_overrides
    (co : gmap string (gmap string float)) (adjusted : gmap string entry)
  : gmap string entry :=
  map_fold (fun comp_name overrides acc =>
              alter (override_entry overrides) comp_name acc) adjusted co.

(** [if comp_type == ty and field in entry: entry[field] = original * k] *)
Definition scale_field (ty field : string) (k : float) (e : entry) : entry :=
  if bool_decide (e_type e = Some ty) then
    match e_fields e !! field with
    | Some original => Entry (e_type e) (<[field := (original * k)%float]> (e_fields e))
    | None => e
    end
  else e.

(** The PRIORITY 2 loop over every component of [adjusted_constants]. *)
Definition apply_global_multipliers (dial : list (string * float))
    (adjusted : gmap string entry) : gmap string entry :=
  let global_transcription := dial_get "global_transcription_rate" 1%float dial in
  let global_degradation := dial_get "global_degradation_rate" 1%float dial in
  (fun e => scale_field "cds" "degradation_rate" global_degradation
              (scale_field "promoter" "strength" global_transcription e))
    <$> adjusted.

(** The result of the override logic of [simulate()], up to the point where
    the builder is created.  [COMPONENT_CONSTANTS.copy()] is a
    shallow copy: the outer dict is new, the inner dicts are shared, and the
    listing assigns into the inner dicts only.  After the call the module's
    table and [adjusted_constants] therefore hold the same values; both are
    returned. *)
Record resolved : Type := Resolved {
  adjusted_constants : gmap string entry;
  COMPONENT_CONSTANTS_after : gmap string entry
}.

Definition simulate (COMPONENT_CONSTANTS : gmap string entry)
    (data : request) : resolved :=
  let dial_data := dial_of data in
  let apply_dial := apply_dial_of data in
  if apply_dial && truthy dial_data then
    let adjusted :=
      apply_global_multipliers dial_data
        (apply_component_overrides (component_overrides dial_data)
           COMPONENT_CONSTANTS) in
    Resolved adjusted adjusted
  else Resolved COMPONENT_CONSTANTS COMPONENT_CONSTANTS.

(** The strength that the circuit builder then reads for a label. *)
Definition strength_of (label : string) (constants : gmap string entry)
  : option float :=
  e ← constants !! label; e_fields e !! "strength".

(** The registry of the architecture notes ([constants.py]). *)
Definition default_constants : gmap string entry :=
  {[ "promoter_1" := Entry (Some "promoter") {[ "strength" := 5%float ]};
     "rbs_1" := Entry (Some "rbs") {[ "efficiency" := 1%float ]};
     "cds_1" := Entry (Some "cds")
                  {[ "degradation_rate" := 1%float;
                     "translation_rate" := 7%float;
                     "init_conc" := 0%float ]};
     "repressor_a" := Entry (Some "repressor")
                        {[ "Kr" := 0.5%float; "n" := 2%float ]} ]}.

(** The dial of the precedence example. *)
Definition example_dial : list (string * float) :=
  [ ("promoter1_strength", 10%float);
    ("global_transcription_rate", 1.5%float) ].

End Overrides.

(** ** The simulation request built by the front end

    [runSimulationFromPlacedComponents] of [eeprom.js] ("Add dial data if
    available") and [runSimulation] of [script.js]. *)

Module Frontend.
Import Overrides.

(** [obj[key] = value] on a JavaScript object: a present key keeps its
    place, a new key goes last. *)
Fixpoint js_set (key : string) (value : float) (obj : list (string * float))
  : list (string * float) :=
  match obj with
  | [] => [(key, value)]
  | (k, v) :: rest =>
      if String.eqb k key then (k, value) :: rest
      else (k, v) :: js_set key value rest
  end.

(** An [input[type="number"]] of the dial form: its [name], its [id] and
    [parseFloat(input.value)]. *)
Record number_input : Type := NumberInput {
  in_name : string;
  in_id : string;
  in_value : float
}.

(** A component of the cellboard being sent; [cb_parameters] is [None] when
    the component carries no [parameters] object. *)
Record board_component : Type := BoardComponent {
  cb_parameters : option (list (string * float))
}.

(** [inputs.forEach(input => { ... dialData[paramName] = value ... })] *)
Definition collect_inputs (inputs : list number_input)
    (dialData : list (string * float)) : list (string * float) :=
  foldl (fun acc input =>
           let paramName :=
             if String.eqb (in_name input) "" then in_id input
             else in_name input in
           if negb (PrimFloat.is_nan (in_value input))
              && negb (String.eqb paramName "")
           then js_set paramName (in_value input) acc
           else acc)
        dialData inputs.

(** [Object.entries(cellboard).forEach(([type, components]) => ...)] *)
Definition collect_component_parameters
    (cellboard : list (string * list board_component))
    (dialData : list (string * float)) : list (string * float) :=
  foldl (fun acc tc =>
           foldl (fun acc' comp =>
                    match cb_parameters comp with
                    | Some ps =>
                        foldl (fun a kv => js_set (fst kv) (snd kv) a) acc' ps
                    | None => acc'
                    end)
                 acc (snd tc))
        dialData cellboard.

(** [collectDialParameters()] of [script.js]; [eeprom.js] collects the same
    way inside [runSimulationFromPlacedComponents]. *)
Definition collectDialParameters (inputs : list number_input)
    (cellboard : list (string * list board_component))
  : list (string * float) :=
  collect_component_parameters cellboard (collect_inputs inputs []).

(** The five global parameters sent when the toggle is off. *)
Definition default_dialData : list (string * float) :=
  [ ("global_transcription_rate", 1%float);
    ("global_translation_rate", 1%float);
    ("global_degradation_rate", 1%float);
    ("temperature_factor", 1%float);
    ("resource_availability", 1%float) ].

(** [toggle ? toggle.checked : false], [toggle] being the element
    [enable_dial_params] when the page has one. *)
Definition include_dial (toggle : option bool) : bool := default false toggle.

(** [runSimulationFromPlacedComponents] of [eeprom.js]: the fields
    [requestData.dial] and [requestData.apply_dial] of the body it posts;
    [dialForm] tells whether the page has the dial form. *)
Definition runSimulationFromPlacedComponents (dialForm : bool)
    (toggle : option bool) (inputs : list number_input)
    (cellboard : list (string * list board_component)) : request :=
  if dialForm then
    let includeDial := include_dial toggle in
    if includeDial then
      Request (Some (collectDialParameters inputs cellboard)) (Some includeDial)
    else Request (Some default_dialData) (Some includeDial)
  else Request None (Some false).

(** [runSimulation] of [script.js]: the fields [simulationData.dial] and
    [simulationData.apply_dial] of the body it posts. *)
Definition runSimulation (toggle : option bool) (inputs : list number_input)
    (cellboard : list (string * list board_component)) : request :=
  let applyDial := include_dial toggle in
  let dialData := collectDialParameters inputs cellboard in
  Request (Some (if negb applyDial then default_dialData else dialData))
          (Some applyDial).

End Frontend.

(** ** Circuit assembly

    [OntologyBuilderUnified.build] and [_finalize_block] of
    [circuit_model.py], as listed in the developer guide ("Circuit
    Building", "Block Finalization") and in the architecture notes
    ("Parameter Assignment During Circuit Building"). *)

Module Builder.
Import Overrides.

(** [class Component]; [type] is the string that [_infer_type] returned. *)
Record Component : Type := mkComponent {
  label : string;
  type : string;
  id : string;
  is_regulator : bool;
  position : option string;
  reg_key : option string;
  global_idx : nat;
  parameters : gmap string float;
  circuit_name : option string
}.

(** The dict that [comp.to_dict()] stores in a circuit; the listings read
    its keys "id", "type", "name" and "parameters". *)
Record component_dict : Type := mkDict {
  cd_id : string;
  cd_type : string;
  cd_name : string;
  cd_parameters : gmap string float
}.

Record circuit : Type := mkCircuit {
  c_name : string;
  c_components : list component_dict
}.

Definition set_parameter (key : string) (value : float) (comp : Component)
  : Component :=
  mkComponent (label comp) (type comp) (id comp) (is_regulator comp)
    (position comp) (reg_key comp) (global_idx comp)
    (<[key := value]> (parameters comp)) (circuit_name comp).

Definition set_circuit_name (name : string) (comp : Component) : Component :=
  mkComponent (label comp) (type comp) (id comp) (is_regulator comp)
    (position comp) (reg_key comp) (global_idx comp)
    (parameters comp) (Some name).

Definition to_dict (comp : Component) : component_dict :=
  mkDict (id comp) (type comp) (label comp) (parameters comp).

(** [params.get(key, dflt)] where
    [params = self.constants.get(comp.label, {})]. *)
Definition params_get (constants : gmap string entry) (lbl key : string)
    (dflt : float) : float :=
  default dflt (e ← constants !! lbl; e_fields e !! key).

(** Step 1 of [_finalize_block] for one component, as the developer guide
    lists the function: a CDS gets its translation rate and its degradation
    rate.  (The architecture notes' excerpt of the loop has a third
    assignment for a CDS, of "init_conc"; the listing of the function has
    none.) *)
Definition assign_parameters (constants : gmap string entry)
    (comp : Component) : Component :=
  let get := params_get constants (label comp) in
  if String.eqb (type comp) "promoter" then
    set_parameter "strength" (get "strength" 1%float) comp
  else if String.eqb (type comp) "rbs" then
    set_parameter "efficiency" (get "efficiency" 1%float) comp
  else if String.eqb (type comp) "cds" then
    set_parameter "degradation_rate" (get "degradation_rate" 0.1%float)
      (set_parameter "translation_rate" (get "translation_rate" 5%float)
         comp)
  else comp.

(** [any(c.type == "cds" for c in comps)] *)
Definition any_cds (comps : list Component) : bool :=
  existsb (fun c => String.eqb (type c) "cds") comps.

(** [f"circuit_{len(self.circuits) + 1}"] *)
Definition next_circuit_name (circuits : list circuit) : string :=
  "circuit_" ++ pretty (length circuits + 1).

(** [_finalize_block]: the new [self.circuits] and the block's components
    as the call leaves them (they are the objects that [self.items] holds).
    The anomaly bookkeeping of step 4 writes neither. *)
Definition _finalize_block (constants : gmap string entry)
    (circuits : list circuit) (comps : list Component)
  : list circuit * list Component :=
  let comps1 := assign_parameters constants <$> comps in
  if negb (any_cds comps1) then (circuits, comps1)
  else
    let name := next_circuit_name circuits in
    let comps2 := set_circuit_name name <$> comps1 in
    ((circuits ++ [mkCircuit name (to_dict <$> comps2)])%list, comps2).

(** The state of the loop of [build]: [self.circuits], the local [block],
    and the items already passed, with the components as finalization left
    them. *)
Record loop_state : Type := LoopState {
  ls_circuits : list circuit;
  ls_block : list Component;
  ls_items : list (option Component)
}.

(** One iteration of [for item in self.items + [None]]. *)
Definition build_step (constants : gmap string entry) (st : loop_state)
    (item : option Component) : loop_state :=
  match item with
  | None =>
      match ls_block st with
      | [] => LoopState (ls_circuits st) [] (ls_items st ++ [None])%list
      | _ :: _ =>
          let '(circuits', comps') :=
            _finalize_block constants (ls_circuits st) (ls_block st) in
          LoopState circuits' [] (ls_items st ++ (Some <$> comps') ++ [None])%list
      end
  | Some comp => LoopState (ls_circuits st) (ls_block st ++ [comp])%list (ls_items st)
  end.

(** What the rest of the loop depends on: the circuits and the open block. *)
Definition core (st : loop_state) : list circuit * list Component :=
  (ls_circuits st, ls_block st).

Record builder : Type := mkBuilder {
  constants : gmap string entry;
  items : list (option Component);
  circuits : list circuit
}.

(** The loop of [build]; the [None] that the loop appends is dropped from
    the items again. *)
Definition build_blocks (b : builder) : builder :=
  let st := foldl (build_step (constants b))
              (LoopState (circuits b) [] []) (items b ++ [None])%list in
  mkBuilder (constants b) (removelast (ls_items st)) (ls_circuits st).

(** A block's left boundary: the start of the items or a gap marker. *)
Definition gap_before (pre : list (option Component)) : bool :=
  match last pre with
  | None | Some None => true
  | Some (Some _) => false
  end.

(** A block's right boundary: the end of the items or a gap marker. *)
Definition gap_after (post : list (option Component)) : bool :=
  match post with
  | [] | None :: _ => true
  | Some _ :: _ => false
  end.

(** A fresh builder holding parsed items. *)
Definition new_builder (constants : gmap string entry)
    (items : list (option Component)) : builder :=
  mkBuilder constants items [].

(** A structural part with a label, a type and an index, for examples. *)
Definition part (lbl ty : string) (idx : nat) : Component :=
  mkComponent lbl ty (ty ++ "_" ++ pretty idx) false None None idx ∅ None.

End Builder.

(** ** Regulation resolution

    [_build_regulations] of [circuit_model.py], as the developer guide
    lists it ("Regulation Detection"): the loop over the regulator
    families, the floating case and the positional case.  The positional
    case calls [extract_gene_from_regulator], [matches_gene],
    [find_promoter_before] and [find_promoter_after], which are not listed;
    they are parameters here.  A raised exception ([IndexError],
    [UnboundLocalError]) is the result [None]. *)

Module Regulation.
Import Overrides Builder.

(** A regulation record.  The listing's records carry one "target", held
    here as the list [r_targets]: one element for a name, none for
    [None]. *)
Record regulation : Type := mkRegulation {
  r_type : string;
  r_source : option string;
  r_targets : list string;
  r_parameters : gmap string float
}.

(** One value of [self.regulators]; "type" and "is_floating" start as
    [None]. *)
Record regulator_family : Type := mkFamily {
  starts : list Component;
  ends : list Component;
  reg_type : option string;
  is_floating : option bool
}.

Definition is_promoter (comp : component_dict) : bool :=
  String.eqb (cd_type comp) "promoter".

Definition is_cds (comp : component_dict) : bool :=
  String.eqb (cd_type comp) "cds".

(** The record appended for one promoter by a floating family:
    [{"source": starts[0].label, "target": comp["name"],
      "type": f"environmental_{reg_type}"}]; [starts[0]] raises on an empty
    list. *)
Definition floating_record (fam : regulator_family) (comp : component_dict)
  : option regulation :=
  start0 ← head (starts fam);
  Some (mkRegulation ("environmental_" ++ Py.str_opt (reg_type fam))
          (Some (label start0)) [cd_name comp] ∅).

(** Case 1: [for circuit in self.circuits: for comp in
    circuit["components"]: if comp["type"] == "promoter": append]. *)
Definition floating_regulations (fam : regulator_family)
    (circuits : list circuit) : option (list regulation) :=
  (fun records => mjoin records) <$>
    mapM (fun c => mapM (floating_record fam)
                     (filter (fun comp => is_promoter comp = true)
                        (c_components c)))
         circuits.

(** What the loops of [_build_regulations] write: the local
    [target_promoter], unbound ([None]) until its first assignment, and
    [self.regulations]. *)
Record resolver_state : Type := mkResolver {
  rs_target_promoter : option (option string);
  rs_regulations : list regulation
}.

(** A [for] loop whose body may raise. *)
Fixpoint fold_raising {A S : Type} (body : S -> A -> option S) (s : S)
    (l : list A) : option S :=
  match l with
  | [] => Some s
  | x :: rest => s' ← body s x; fold_raising body s' rest
  end.

(** The record appended for a matching CDS:
    [{"source": cds["name"], "target": target_promoter,
      "type": f"transcriptional_{reg_type}",
      "parameters": {"Kd": self.constants.get(starts[0].label, {})
                                 .get("Kd", 5.0),
                     "n": self.constants.get(starts[0].label, {})
                                .get("n", 2)}}]. *)
Definition positional_record (constants : gmap string entry)
    (fam : regulator_family) (cds : component_dict)
    (target_promoter : option string) : option regulation :=
  start0 ← head (starts fam);
  Some (mkRegulation ("transcriptional_" ++ Py.str_opt (reg_type fam))
          (Some (cd_name cds)) (option_list target_promoter)
          {[ "Kd" := params_get constants (label start0) "Kd" 5%float;
             "n" := params_get constants (label start0) "n" 2%float ]}).

Section Resolver.
Context {gene : Type}.
Variable extract_gene_from_regulator : string -> gene.
Variable matches_gene : string -> gene -> bool.
Variable find_promoter_before : component_dict -> option string.
Variable find_promoter_after : component_dict -> option string.

(** The body of [for i, cds in enumerate(cds_list)].  A key that holds
    neither "start" nor "end" leaves [target_promoter] as it was; reading
    it unbound raises. *)
Definition positional_step (constants : gmap string entry)
    (reg_key : string) (fam : regulator_family) (gene_id : gene)
    (st : resolver_state) (cds : component_dict) : option resolver_state :=
  if matches_gene (cd_name cds) gene_id
  then
    let bound :=
      if Py.contains "start" reg_key
      then Some (find_promoter_before cds)
      else if Py.contains "end" reg_key
      then Some (find_promoter_after cds)
      else rs_target_promoter st in
    target_promoter ← bound;
    record ← positional_record constants fam cds target_promoter;
    Some (mkResolver bound (rs_regulations st ++ [record])%list)
  else Some st.

(** Case 2: [gene_id = extract_gene_from_regulator(reg_key)], then for
    every circuit the loop over its CDS. *)
Definition positional_regulations (constants : gmap string entry)
    (reg_key : string) (fam : regulator_family) (circuits : list circuit)
    (st : resolver_state) : option resolver_state :=
  let gene_id := extract_gene_from_regulator reg_key in
  fold_raising
    (fun st c =>
       fold_raising (positional_step constants reg_key fam gene_id) st
         (filter (fun comp => is_cds comp = true) (c_components c)))
    st circuits.

(** One iteration of [for reg_key, reg_data in self.regulators.items()]. *)
Definition family_regulations (b : builder) (st : resolver_state)
    (family : string * regulator_family) : option resolver_state :=
  if bool_decide (is_floating family.2 = Some true)
  then
    records ← floating_regulations family.2 (circuits b);
    Some (mkResolver (rs_target_promoter st)
            (rs_regulations st ++ records)%list)
  else
    positional_regulations (constants b) family.1 family.2 (circuits b) st.

(** [_build_regulations]: [self.regulations] after the loop. *)
Definition _build_regulations (b : builder)
    (regulators : list (string * regulator_family))
    (regulations : list regulation) : option (list regulation) :=
  rs_regulations <$>
    fold_raising (family_regulations b) (mkResolver None regulations)
      regulators.

End Resolver.

(** The promoters of all circuits, in order. *)
Definition promoters_of (circuits : list circuit) : list component_dict :=
  c ← circuits; filter (fun comp => is_promoter comp = true) (c_components c).





(** Modelled from the spec: the promoter that governs a circuit's CDS.
    "Only the first promoter in a block is treated as authoritative"; a
    block without a promoter has none. *)
Definition governing_promoter (c : circuit) : option string :=
  cd_name <$> head (filter (fun comp => is_promoter comp = true)
                      (c_components c)).

(** Modelled from the spec: the promoter/CDS pairs of the circuits, in
    order: every CDS of every circuit with the promoter that governs it,
    [None] where the circuit has no promoter ("a defined (possibly null)
    regulatory input"). *)
Definition promoter_cds_pairs (circuits : list circuit)
  : list (option string * string) :=
  c ← circuits;
  (fun comp => (governing_promoter c, cd_name comp))
    <$> filter (fun comp => is_cds comp = true) (c_components c).

(** Modelled from the spec: a record is assigned to a pair when it targets
    the pair's promoter: the promoter's label is among its targets, or, for
    a pair without a promoter, it has no target. *)
Definition targets_promoter (p : option string) (r : regulation) : bool :=
  match p with
  | Some q => bool_decide (q ∈ r_targets r)
  | None => bool_decide (r_targets r = [])
  end.

(** Modelled from the spec: the synthesized record, of kind "constitutive"
    and without a source. *)
Definition constitutive_record (p : option string) : regulation :=
  mkRegulation "constitutive" None (option_list p) ∅.

(** Modelled from the spec: one step of [_add_constitutive_regulations].
    "Any promoter/CDS pair with no assigned regulation record gets one
    synthetic constitutive record"; the records already present count,
    the ones just added included. *)
Definition add_step (regs : list regulation) (pair : option string * string)
  : list regulation :=
  if existsb (targets_promoter pair.1) regs then regs
  else (regs ++ [constitutive_record pair.1])%list.

(** Modelled from the spec: [_add_constitutive_regulations] is called by
    [build] but not listed.  "After all explicit regulations are built",
    the pairs are visited in order. *)
Definition _add_constitutive_regulations (circuits : list circuit)
    (regulations : list regulation) : list regulation :=
  foldl add_step regulations (promoter_cds_pairs circuits).

(** The number of records that target a promoter. *)
Definition count_targeting (p : option string)
    (regulations : list regulation) : nat :=
  length (filter (fun r => targets_promoter p r = true) regulations).


(** A floating repressor family and a one-promoter circuit. *)
Definition floating_repressor : regulator_family :=
  mkFamily
    [mkComponent "floating_repressor" "repressor" "repressor_A3" true None
       (Some "floating_repressor") 3 ∅ None]
    [] (Some "repression") (Some true).

Definition one_promoter_circuit : circuit :=
  mkCircuit "circuit_1"
    [mkDict "promoter_A0" "promoter" "promoter_1" ∅;
     mkDict "rbs_A1" "rbs" "rbs_1" ∅;
     mkDict "cds_A2" "cds" "cds_1" ∅].


End Regulation.

(** ** ODE set-up

    [simulate_circuit] of [circuit_model.py], as the developer guide lists
    it ("ODE System Setup"): the list of CDS, the parameter dictionary and
    the right-hand side [rhs].  The initial state follows the architecture
    notes' listing ("ODE Solution with Symmetry Breaking").  The listing
    uses [id2comp], [find_upstream_promoter] and [find_upstream_rbs]
    without listing them; they are parameters here. *)

Module Ode.
Import Builder.

(** One value of [cds_params]. *)
Record cds_parameters : Type := mkParams {
  k0 : float;
  kprod : float;
  degradation : float;
  initial_conc : float
}.

(** The body of [for cds_id in cds_list] once the two helpers have
    returned [promoter] and [rbs]:
    [k_prod = promoter["strength"] * rbs["efficiency"]
              * comp["translation_rate"]] and the entry
    [{"k0": 0.0, "kprod": k_prod, "degradation": comp["degradation_rate"],
      "initial_conc": comp.get("init_conc", 0.01)}].  The values are read
    from the parameters that the component dicts carry; a key that is
    missing raises. *)
Definition cds_entry (promoter rbs comp : component_dict)
  : option cds_parameters :=
  strength ← cd_parameters promoter !! "strength";
  efficiency ← cd_parameters rbs !! "efficiency";
  translation_rate ← cd_parameters comp !! "translation_rate";
  degradation_rate ← cd_parameters comp !! "degradation_rate";
  let k_prod := (strength * efficiency * translation_rate)%float in
  Some (mkParams 0.0 k_prod degradation_rate
          (default 0.01%float (cd_parameters comp !! "init_conc"))).

(** The architecture notes' listing of the same loop ("Parameter
    Dictionary Construction"): the same product, a basal rate
    [k0 = 0.01 * kprod], and [comp['parameters']['init_conc']] without a
    default. *)
Definition cds_entry_notes (promoter rbs comp : component_dict)
  : option cds_parameters :=
  promoter_strength ← cd_parameters promoter !! "strength";
  rbs_efficiency ← cd_parameters rbs !! "efficiency";
  translation_rate ← cd_parameters comp !! "translation_rate";
  degradation_rate ← cd_parameters comp !! "degradation_rate";
  initial_conc ← cd_parameters comp !! "init_conc";
  let kprod := (promoter_strength * rbs_efficiency * translation_rate)%float in
  let k0 := (0.01 * kprod)%float in
  Some (mkParams k0 kprod degradation_rate initial_conc).

Definition is_cds (comp : component_dict) : bool :=
  String.eqb (cd_type comp) "cds".



(** The single circuit promoter_1, rbs_1, cds_1, terminator_1 as [build]
    finalizes it against the default registry. *)
Definition single_gene_items : list (option Component) :=
  [ Some (part "promoter_1" "promoter" 0); Some (part "rbs_1" "rbs" 1);
    Some (part "cds_1" "cds" 2); Some (part "terminator_1" "terminator" 3) ].

Definition promoter_1 : component_dict :=
  mkDict "promoter_0" "promoter" "promoter_1" {[ "strength" := 5%float ]}.

Definition rbs_1 : component_dict :=
  mkDict "rbs_1" "rbs" "rbs_1" {[ "efficiency" := 1%float ]}.

Definition cds_1 : component_dict :=
  mkDict "cds_2" "cds" "cds_1"
    {[ "translation_rate" := 7%float; "degradation_rate" := 1%float ]}.

Definition single_gene_circuit : circuit :=
  mkCircuit "circuit_1"
    [ promoter_1; rbs_1; cds_1;
      mkDict "terminator_3" "terminator" "terminator_1" ∅ ].

(** [reg["parameters"]]: the threshold and the Hill coefficient. *)
Record hill_parameters : Type := mkHill {
  Kd : float;
  n : nat
}.

(** A regulation as [rhs] reads it. *)
Record ode_regulation : Type := mkOdeRegulation {
  source : option string;
  reg_kind : string;
  reg_parameters : hill_parameters
}.

(** [Kd**n / (Kd**n + source_conc**n)] *)
Definition hill_repression (Kd : float) (n : nat) (source_conc : float)
  : float :=
  (Py.pow Kd n / (Py.pow Kd n + Py.pow source_conc n))%float.

(** [source_conc**n / (Kd**n + source_conc**n)] *)
Definition hill_activation (Kd : float) (n : nat) (source_conc : float)
  : float :=
  (Py.pow source_conc n / (Py.pow Kd n + Py.pow source_conc n))%float.

(** [cds_list.index(source_cds)]; [None] for [ValueError]. *)
Fixpoint index_of (x : string) (l : list string) : option nat :=
  match l with
  | [] => None
  | y :: rest => if String.eqb y x then Some 0 else S <$> index_of x rest
  end.

(** [for reg in regs: ...; f_vals.append(hill)].  The local [hill] keeps
    its last value when a type is neither a repression nor an activation;
    appending it unbound raises. *)
Fixpoint f_vals_loop (cds_ids : list string) (p : list float)
    (regs : list ode_regulation) (hill : option float) (f_vals : list float)
  : option (option float * list float) :=
  match regs with
  | [] => Some (hill, f_vals)
  | reg :: rest =>
      source_cds ← source reg;
      source_idx ← index_of source_cds cds_ids;
      source_conc ← p !! source_idx;
      let Kd := Kd (reg_parameters reg) in
      let n := n (reg_parameters reg) in
      let hill' :=
        if Py.contains "repression" (reg_kind reg)
        then Some (hill_repression Kd n source_conc)
        else if Py.contains "activation" (reg_kind reg)
        then Some (hill_activation Kd n source_conc)
        else hill in
      h ← hill';
      f_vals_loop cds_ids p rest hill' (f_vals ++ [h])
  end.

(** [np.prod(f_vals) if f_vals else 1.0] *)
Definition f_total (f_vals : list float) : float :=
  match f_vals with
  | [] => 1%float
  | f :: rest => foldl (fun a b => (a * b)%float) f rest
  end.

(** The loop of [rhs] from position [i] on; [dpdt] is the array built so
    far.  Reading [p[i]] or writing [dpdt[i]] past the end raises. *)
Fixpoint rhs_loop (cds_ids : list string)
    (params : gmap string cds_parameters)
    (reg_map : gmap string (list ode_regulation)) (p : list float)
    (todo : list string) (i : nat) (hill : option float) (dpdt : list float)
  : option (list float) :=
  match todo with
  | [] => Some dpdt
  | cds_id :: rest =>
      pars ← params !! cds_id;
      let regs := default [] (reg_map !! cds_id) in
      '(hill', f_vals) ← f_vals_loop cds_ids p regs hill [];
      p_i ← p !! i;
      _ ← dpdt !! i;
      let rate :=
        (k0 pars + kprod pars * f_total f_vals - degradation pars * p_i)%float in
      rhs_loop cds_ids params reg_map p rest (S i) hill' (<[i := rate]> dpdt)
  end.

(** [rhs(p, t)], starting from [np.zeros(len(p))]. *)
Definition rhs (cds_ids : list string) (params : gmap string cds_parameters)
    (reg_map : gmap string (list ode_regulation)) (p : list float)
  : option (list float) :=
  rhs_loop cds_ids params reg_map p cds_ids 0 None
    (replicate (length p) 0%float).

(** [all(p == 0 for p in p0)] *)
Definition all_zero (p0 : list float) : bool :=
  forallb (fun p => PrimFloat.eqb p 0) p0.

(** The initial state handed to [odeint] ("ODE Solution with Symmetry
    Breaking"); [has_regulatory_feedback] is computed by code that is not
    listed and is taken as given. *)
Definition initial_state (has_regulatory_feedback : bool) (p0 : list float)
  : list float :=
  if (3 <=? length p0)%nat && has_regulatory_feedback && all_zero p0
  then [1.0; 0.1; 0.05]%float
  else replicate (length p0) 0.01%float.

(** The seed sequence 1.0, 0.1, 0.05 repeated up to a length. *)
Definition cycled_seed (len : nat) : list float :=
  take len (mjoin (replicate len [1.0; 0.1; 0.05]%float)).

(** A ring of four genes, each repressed by its predecessor. *)
Definition ring4_ids : list string := ["cds_1"; "cds_2"; "cds_3"; "cds_4"].

Definition ring4_params : gmap string cds_parameters :=
  list_to_map ((fun cds_id => (cds_id, mkParams 0.05 5 1 0)%float) <$> ring4_ids).

Definition ring4_reg_map : gmap string (list ode_regulation) :=
  let repressed_by src :=
    [mkOdeRegulation (Some src) "transcriptional_repression" (mkHill 0.5 2)] in
  {[ "cds_1" := repressed_by "cds_4"; "cds_2" := repressed_by "cds_1";
     "cds_3" := repressed_by "cds_2"; "cds_4" := repressed_by "cds_3" ]}.

End Ode.

(** ** The board state

    [state], the cell click handler of [setupCells] and [removeComponent]
    of [eeprom.js]. *)

Module Board.

(** A coordinate held by a component: a number ([parseInt] of the cell's
    data attribute) or the decimal string of the data attribute itself, as
    [createPlacedComponent] stores it. *)
Inductive coord : Type :=
  | Num (k : Z)
  | Str (k : Z).

(** [a === b] *)
Definition strict_eq (a b : coord) : bool :=
  match a, b with
  | Num j, Num k | Str j, Str k => (j =? k)%Z
  | _, _ => false
  end.

(** [a == b]: a decimal string is compared by its number. *)
Definition loose_eq (a b : coord) : bool :=
  match a, b with
  | Num j, Num k | Str j, Str k | Num j, Str k | Str j, Num k => (j =? k)%Z
  end.

Record component : Type := mkComponent {
  type : string;
  number : nat;
  strength : string;
  x : coord;
  y : coord;
  id : float;
  customName : option string;
  parameters : list (string * float)
}.

(** The classes of a board cell that the two functions read or write. *)
Record cell_classes : Type := mkClasses {
  has_component : bool;
  filled : bool
}.

Record board_state : Type := mkState {
  currentComponent : option string;
  currentStrength : string;
  placedComponents : list component;
  componentCounts : list (string * nat);
  cellboard : list (string * list component);
  cells : gmap (Z * Z) cell_classes
}.

(** [comp.x === x && comp.y === y] *)
Definition at_strict (cx cy : Z) (comp : component) : bool :=
  strict_eq (x comp) (Num cx) && strict_eq (y comp) (Num cy).

(** [c.x == x && c.y == y] *)
Definition at_loose (cx cy : Z) (comp : component) : bool :=
  loose_eq (x comp) (Num cx) && loose_eq (y comp) (Num cy).

(** [arr.findIndex(pred)] followed by [arr.splice(index, 1)] when an index
    was found: the array left and the element taken out. *)
Definition splice_first (pred : component -> bool) (arr : list component)
  : list component * option component :=
  match list_find (fun comp => pred comp = true) arr with
  | Some (index, removed) => (delete index arr, Some removed)
  | None => (arr, None)
  end.

(** [s.toLowerCase()] on ASCII letters. *)
Definition lower_char (c : Ascii.ascii) : Ascii.ascii :=
  let k := nat_of_ascii c in
  if (65 <=? k)%nat && (k <=? 90)%nat then ascii_of_nat (k + 32) else c.

Fixpoint toLowerCase (s : string) : string :=
  match s with
  | EmptyString => EmptyString
  | String c rest => String (lower_char c) (toLowerCase rest)
  end.

(** [s.replace(' ', '_')]: the first space only. *)
Fixpoint replace_first_space (s : string) : string :=
  match s with
  | EmptyString => EmptyString
  | String c rest =>
      if Ascii.eqb c " "%char then String "_"%char rest
      else String c (replace_first_space rest)
  end.

(** [if (!counts[key]) counts[key] = 1; else counts[key]++]: the new
    counts and the new value. *)
Fixpoint bump (key : string) (counts : list (string * nat))
  : list (string * nat) * nat :=
  match counts with
  | [] => ([(key, 1%nat)], 1%nat)
  | (k, v) :: rest =>
      if String.eqb k key
      then let v' := match v with O => 1%nat | S _ => S v end in
           ((k, v') :: rest, v')
      else let '(rest', v') := bump key rest in ((k, v) :: rest', v')
  end.


(** [if (!cellboard[type]) cellboard[type] = [];
     cellboard[type].push(component)] *)
Fixpoint cellboard_push (ty : string) (comp : component)
    (cb : list (string * list component)) : list (string * list component) :=
  match cb with
  | [] => [(ty, [comp])]
  | (k, comps) :: rest =>
      if String.eqb k ty then (k, comps ++ [comp])%list :: rest
      else (k, comps) :: cellboard_push ty comp rest
  end.

(** The loop of [removeComponent] over [Object.entries(state.cellboard)]:
    the first array with a match loses it, and the loop breaks. *)
Fixpoint cellboard_remove (cx cy : Z) (cb : list (string * list component))
  : list (string * list component) * option component :=
  match cb with
  | [] => ([], None)
  | (k, comps) :: rest =>
      match splice_first (at_strict cx cy) comps with
      | (comps', Some removed) => ((k, comps') :: rest, Some removed)
      | (_, None) =>
          let '(rest', removed) := cellboard_remove cx cy rest in
          ((k, comps) :: rest', removed)
      end
  end.

(** [state.currentComponent && state.currentComponent !== 'undefined'] *)
Definition selected (st : board_state) : option string :=
  match currentComponent st with
  | Some ty =>
      if String.eqb ty "" || String.eqb ty "undefined" then None else Some ty
  | None => None
  end.

(** The array after "Remove existing component first". *)
Definition without_existing (st : board_state) (cx cy : Z)
    (cls : cell_classes) : list component :=
  if has_component cls
  then (splice_first (at_loose cx cy) (placedComponents st)).1
  else placedComponents st.

(** The object that the click handler builds; [fresh_id] is the value of
    [Date.now() + Math.random()]. *)
Definition new_component (st : board_state) (cx cy : Z) (fresh_id : float)
    (ty : string) : component :=
  mkComponent ty
    (bump (replace_first_space (toLowerCase ty)) (componentCounts st)).2
    (if String.eqb (currentStrength st) "" then "norm" else currentStrength st)
    (Num cx) (Num cy) fresh_id None [].

(** The click handler of the cell at [(cx, cy)].  A cell that the board
    does not have carries no handler. *)
Definition cell_click (st : board_state) (cx cy : Z) (fresh_id : float)
  : board_state :=
  match cells st !! (cx, cy) with
  | None => st
  | Some cls =>
      match selected st with
      | None => st
      | Some ty =>
          let comp := new_component st cx cy fresh_id ty in
          mkState None "norm"
            (without_existing st cx cy cls ++ [comp])
            (bump (replace_first_space (toLowerCase ty)) (componentCounts st)).1
            (cellboard_push ty comp (cellboard st))
            (<[(cx, cy) := mkClasses false true]> (cells st))
      end
  end.

(** [removeComponent(x, y)]: the state left and the value returned. *)
Definition removeComponent (st : board_state) (cx cy : Z)
  : board_state * option component :=
  match cells st !! (cx, cy) with
  | None => (st, None)
  | Some _ =>
      let cleared := <[(cx, cy) := mkClasses false false]> (cells st) in
      match splice_first (at_strict cx cy) (placedComponents st) with
      | (placed', Some removed) =>
          (mkState (currentComponent st) (currentStrength st) placed'
             (componentCounts st) (cellboard st) cleared,
           Some removed)
      | (_, None) =>
          match cellboard_remove cx cy (cellboard st) with
          | (cb', Some removed) =>
              (mkState (currentComponent st) (currentStrength st)
                 (placedComponents st) (componentCounts st) cb' cleared,
               Some removed)
          | (_, None) => (st, None)
          end
      end
  end.

(** A board of one row with an empty state and "Promoter" selected. *)
Definition fresh_board : board_state :=
  mkState (Some "Promoter") "norm" [] []
    [("Promoter", []); ("RBS", []); ("CDS", []); ("Terminator", [])]
    (list_to_map ((fun k => ((k, 0%Z), mkClasses false false))
                    <$> [0%Z; 1%Z; 2%Z; 3%Z])).

End Board.

(** ** Notions used to state further properties of the assembly *)

Module BuilderNotions.
Import Overrides Builder.

(** What identifies a part: its label, its type and its index. *)
Definition skeleton (comp : Component) : string * string * nat :=
  (label comp, type comp, global_idx comp).

(** The items as a sequence of gaps and part identities. *)
Definition skeletons (items : list (option Component))
  : list (option (string * string * nat)) :=
  (fun item : option Component => skeleton <$> item) <$> items.

(** Some item is a CDS. *)
Definition any_cds_item (items : list (option Component)) : bool :=
  existsb (fun item => match item with
                       | Some comp => String.eqb (type comp) "cds"
                       | None => false
                       end) items.

(** The parameters that [_finalize_block] gives a component of a circuit:
    the registry's value for the component's label, else the default. *)
Definition populated (constants : gmap string entry) (d : component_dict)
  : Prop :=
  (cd_type d = "promoter" ->
   cd_parameters d !! "strength"
   = Some (params_get constants (cd_name d) "strength" 1%float))
  /\ (cd_type d = "rbs" ->
      cd_parameters d !! "efficiency"
      = Some (params_get constants (cd_name d) "efficiency" 1%float))
  /\ (cd_type d = "cds" ->
      cd_parameters d !! "translation_rate"
      = Some (params_get constants (cd_name d) "translation_rate" 5%float)
      /\ cd_parameters d !! "degradation_rate"
         = Some (params_get constants (cd_name d) "degradation_rate"
                   0.1%float)).

(** A circuit holds a CDS. *)
Definition holds_cds (c : circuit) : bool :=
  existsb (fun d => String.eqb (cd_type d) "cds") (c_components c).

(** Whether the loop has produced a circuit or holds a CDS in the open
    block. *)
Definition seen_cds (st : loop_state) : bool :=
  match ls_circuits st with
  | [] => false
  | _ :: _ => true
  end || any_cds (ls_block st).

End BuilderNotions.

(** ** Notions used to state further properties of the request *)

Module FrontendNotions.
Import Overrides Frontend.

(** [obj[key]] *)
Fixpoint js_get (key : string) (obj : list (string * float)) : option float :=
  match obj with
  | [] => None
  | (k, v) :: rest => if String.eqb k key then Some v else js_get key rest
  end.

(** The value that a sequence of assignments leaves for a key: the last one
    assigned to it. *)
Definition last_assigned (key : string) (assignments : list (string * float))
  : option float :=
  foldl (fun r kv => if String.eqb kv.1 key then Some kv.2 else r)
        None assignments.

(** The assignment that a form input causes, if it causes one. *)
Definition input_assignment (input : number_input) : option (string * float) :=
  let paramName :=
    if String.eqb (in_name input) "" then in_id input else in_name input in
  if negb (PrimFloat.is_nan (in_value input)) && negb (String.eqb paramName "")
  then Some (paramName, in_value input)
  else None.

(** The parameters of all components, in cellboard order. *)
Definition component_assignments
    (cellboard : list (string * list board_component))
  : list (string * float) :=
  tc ← cellboard; comp ← tc.2; default [] (cb_parameters comp).

End FrontendNotions.

(** ** Board population from the hardware log

    [static/js/eeprom.js]: [parseComponentName], [extractGeneFromName],
    the position arithmetic of [populateBoardFromChannelData] and
    [createPlacedComponent].  A name is a string of code units below 256. *)

Module Hardware.
Import Board.

(** White space and line terminators, as [trim] removes them. *)
Definition is_whitespace (c : Ascii.ascii) : bool :=
  let k := nat_of_ascii c in
  ((9 <=? k)%nat && (k <=? 13)%nat) || (k =? 32)%nat || (k =? 160)%nat.

Fixpoint trimStart (s : string) : string :=
  match s with
  | EmptyString => EmptyString
  | String c rest => if is_whitespace c then trimStart rest else s
  end.

(** [s.trim()] *)
Definition trim (s : string) : string :=
  String.rev (trimStart (String.rev (trimStart s))).

(** [s.includes(sub)] *)
Definition includes (sub s : string) : bool :=
  match String.index 0 sub s with
  | Some _ => true
  | None => false
  end.

(** [s.startsWith(p)] *)
Definition startsWith (p s : string) : bool := String.prefix p s.

(** [[a-z]] under the flag [i]. *)
Definition is_letter (c : Ascii.ascii) : bool :=
  let k := nat_of_ascii c in
  ((65 <=? k)%nat && (k <=? 90)%nat) || ((97 <=? k)%nat && (k <=? 122)%nat).

(** [s.toUpperCase()] on one ASCII letter. *)
Definition upper_char (c : Ascii.ascii) : Ascii.ascii :=
  let k := nat_of_ascii c in
  if (97 <=? k)%nat && (k <=? 122)%nat then ascii_of_nat (k - 32) else c.

(** The group of the leftmost match of [/_([a-z])(?:_|$)/i]: an underscore,
    a letter, and then an underscore or the end of the name. *)
Fixpoint gene_match (s : string) : option Ascii.ascii :=
  match s with
  | EmptyString => None
  | String u tail =>
      match tail with
      | EmptyString => None
      | String c rest =>
          if Ascii.eqb u "_"%char && is_letter c
             && match rest with
                | EmptyString => true
                | String d _ => Ascii.eqb d "_"%char
                end
          then Some c
          else gene_match tail
      end
  end.

(** [match ? match[1].toUpperCase() : '1'] *)
Definition extractGeneFromName (name : string) : string :=
  match gene_match name with
  | Some c => String (upper_char c) EmptyString
  | None => "1"
  end.

Record parsed_component : Type := mkParsed {
  p_name : string;
  p_type : string;
  p_gene : string;
  p_strength : string
}.

(** The object that every matching branch returns. *)
Definition recognised (name ty : string) : option parsed_component :=
  Some (mkParsed name ty (extractGeneFromName name) "norm").

(** [parseComponentName(name)]; [None] is [null].  The statements after
    the first [return null] are never reached. *)
Definition parseComponentName (name : string) : option parsed_component :=
  let cleanName := trim (toLowerCase name) in
  let generic :=
    if startsWith "repressor" cleanName || startsWith "r_" cleanName
       || String.eqb cleanName "r_a" || String.eqb cleanName "r_b"
    then recognised name "Repressor"
    else if startsWith "activator" cleanName
    then recognised name "Activator"
    else None in
  let ends :=
    if includes "_end" cleanName
    then if startsWith "repressor" cleanName
         then recognised name "Repressor End"
         else if startsWith "activator" cleanName
         then recognised name "Activator End"
         else if startsWith "inducer" cleanName
         then recognised name "Inducer End"
         else if startsWith "inhibitor" cleanName
         then recognised name "Inhibitor End"
         else generic
    else generic in
  let starts :=
    if includes "_start" cleanName
    then if startsWith "repressor" cleanName
         then recognised name "Repressor Start"
         else if startsWith "activator" cleanName
         then recognised name "Activator Start"
         else if startsWith "inducer" cleanName
         then recognised name "Inducer Start"
         else if startsWith "inhibitor" cleanName
         then recognised name "Inhibitor Start"
         else ends
    else ends in
  if includes "promotor" cleanName || String.eqb cleanName "omo"
  then recognised name "Promoter"
  else if startsWith "rbs" cleanName
  then recognised name "RBS"
  else if startsWith "cds" cleanName
  then recognised name "CDS"
  else if startsWith "terminator" cleanName || String.eqb cleanName "termi"
  then recognised name "Terminator"
  else starts.

(** The type names that the branches of [parseComponentName] return. *)
Definition parsed_types : list string :=
  ["Promoter"; "RBS"; "CDS"; "Terminator";
   "Repressor Start"; "Activator Start"; "Inducer Start"; "Inhibitor Start";
   "Repressor End"; "Activator End"; "Inducer End"; "Inhibitor End";
   "Repressor"; "Activator"].

(** [muxLetter === 'A' ? channelNum : channelNum + 16] *)
Definition linearPosition (muxLetter : string) (channelNum : Z) : Z :=
  if String.eqb muxLetter "A" then channelNum else (channelNum + 16)%Z.

(** The cell [(data-x, data-y)] = [(col, row)] of a channel whose number
    is not negative. *)
Definition board_cell (muxLetter : string) (channelNum : Z) : Z * Z :=
  let lin := linearPosition muxLetter channelNum in
  ((lin mod 8)%Z, (lin / 8)%Z).

(** [circuit_model.py], [Component.__init__] as listed in the developer
    guide: [(ord(mux_chr) - ord('A')) * 16 + channel]. *)
Definition global_idx (mux_chr : Ascii.ascii) (channel : Z) : Z :=
  ((Z.of_nat (nat_of_ascii mux_chr) - Z.of_nat (nat_of_ascii "A"%char)) * 16
   + channel)%Z.

(** [createPlacedComponent(cell, component)] for the cell at [(cx, cy)]:
    the coordinates are stored as the strings of the cell's data
    attributes.  The [gene] property of the stored object, which neither
    the click handler nor [removeComponent] reads, is left out. *)
Definition createPlacedComponent (st : board_state) (cx cy : Z)
    (fresh_id : float) (component : parsed_component) : board_state :=
  let counts :=
    bump (replace_first_space (toLowerCase (p_type component)))
         (componentCounts st) in
  mkState (currentComponent st) (currentStrength st)
    (placedComponents st
     ++ [mkComponent (p_type component) counts.2
           (if String.eqb (p_strength component) "" then "norm"
            else p_strength component)
           (Str cx) (Str cy) fresh_id (Some (p_name component)) []])
    counts.1 (cellboard st)
    (<[(cx, cy) := mkClasses true true]> (cells st)).

End Hardware.

(** ** Selection, drag and drop, and clearing the board

    [static/js/eeprom.js]: the palette's click handler and [clearBoard];
    [static/js/script.js]: [placeComponent], the cells' drop handler and
    [clearBoard]. *)

Module Designer.
Import Board.

(** The palette's click handler: [state.currentComponent = componentType;
    state.currentStrength = 'norm']. *)
Definition select_component (st : board_state) (componentType : string)
  : board_state :=
  mkState (Some componentType) "norm" (placedComponents st)
    (componentCounts st) (cellboard st) (cells st).






(** The number of objects that the two stores hold. *)
Definition stored (st : board_state) : nat :=
  (length (placedComponents st)
   + sum_list_with (fun entry : string * list component => length entry.2)
       (cellboard st))%nat.


End Designer.

(** ** An example for the positional case

    The four helpers of the positional case are not listed.  For the
    examples they are read by their names: the gene of a key or of a name
    is the letter that [extractGeneFromName] of the front end finds in it,
    and the promoter before (after) a CDS is the last (first) promoter that
    precedes (follows) the CDS among the components of all circuits. *)

Module RegulationExamples.
Import Overrides Builder Regulation.














End RegulationExamples.

(** * Properties *)

(** ** Numbers *)

Module PyFacts.

(** Two floats that the IEEE comparison tells apart are different values. *)
Lemma float_neq (a b : float) :
  PrimFloat.eqb a b = false -> PrimFloat.eqb a a = true -> a <> b.
Proof. intros Hab Haa E. rewrite <- E in Hab. congruence. Qed.

End PyFacts.

(** ** Parameter override resolution *)

Module OverridesFacts.
Import Overrides.

Lemma component_overrides_example :
  component_overrides example_dial
  = {[ "promoter_1" := {[ "strength" := 10%float ]} ]}.
Proof. vm_compute. reflexivity. Qed.

Lemma strength_after_globals (dial : list (string * float))
    (adjusted : gmap string entry) (label : string) (e : entry) (s : float) :
  adjusted !! label = Some e ->
  e_type e = Some "promoter" ->
  e_fields e !! "strength" = Some s ->
  strength_of label (apply_global_multipliers dial adjusted)
  = Some (s * dial_get "global_transcription_rate" 1%float dial)%float.
Proof.
  intros Hl Ht Hs.
  unfold strength_of, apply_global_multipliers.
  rewrite lookup_fmap, Hl. simpl.
  assert (Hp : scale_field "promoter" "strength"
                 (dial_get "global_transcription_rate" 1%float dial) e
               = Entry (e_type e)
                   (<["strength" :=
                       (s * dial_get "global_transcription_rate" 1%float dial)%float]>
                      (e_fields e))).
  { unfold scale_field. rewrite Ht, Hs.
    rewrite bool_decide_eq_true_2 by reflexivity. reflexivity. }
  rewrite Hp. unfold scale_field. simpl. rewrite Ht.
  rewrite bool_decide_eq_false_2 by discriminate.
  simpl. apply lookup_insert_eq.
Qed.

(** C1: with promoter_1 at strength 5.0, the dial
    [{promoter1_strength: 10.0, global_transcription_rate: 1.5}] and
    overrides enabled, the strength resolved for promoter_1 is exactly
    15.0: the per-instance value replaces the default first and the global
    multiplier scales the replaced value; the result is not 7.5. *)
Theorem override_applied_before_multiplier
    (constants : gmap string entry) (e : entry) :
  constants !! "promoter_1" = Some e ->
  e_type e = Some "promoter" ->
  e_fields e !! "strength" = Some 5%float ->
  let r := simulate constants (Request (Some example_dial) (Some true)) in
  strength_of "promoter_1" (adjusted_constants r) = Some 15%float
  /\ strength_of "promoter_1" (adjusted_constants r) <> Some 7.5%float.
Proof.
  intros Hl Ht Hs r.
  assert (Hr : strength_of "promoter_1" (adjusted_constants r) = Some 15%float).
  { subst r.
    change (adjusted_constants
              (simulate constants (Request (Some example_dial) (Some true))))
      with (apply_global_multipliers example_dial
              (apply_component_overrides (component_overrides example_dial)
                 constants)).
    rewrite component_overrides_example.
    unfold apply_component_overrides. rewrite map_fold_singleton.
    rewrite (strength_after_globals example_dial _ "promoter_1"
               (override_entry {[ "strength" := 10%float ]} e) 10%float).
    - reflexivity.
    - rewrite lookup_alter_eq, Hl. reflexivity.
    - exact Ht.
    - simpl. apply lookup_union_Some_l. apply lookup_singleton_eq. }
  split; [exact Hr|].
  rewrite Hr. intros H.
  apply (f_equal (default 0%float)) in H. simpl in H.
  revert H. apply PyFacts.float_neq; vm_compute; reflexivity.
Qed.

Lemma override_applied_before_multiplier_witness :
  strength_of "promoter_1"
    (adjusted_constants
       (simulate default_constants (Request (Some example_dial) (Some true))))
  = Some 15%float
  /\ strength_of "promoter_1"
       (adjusted_constants
          (simulate default_constants (Request (Some example_dial) (Some true))))
     <> Some 7.5%float.
Proof.
  apply (override_applied_before_multiplier default_constants
           (Entry (Some "promoter") {[ "strength" := 5%float ]}));
    vm_compute; reflexivity.
Defined.

(** C4: with the apply flag false the resolved parameters are the registry
    that was passed in, whatever the request's dial holds, and the module's
    own table is left as it was.  Both front ends send the flag as false
    when the toggle is unchecked or absent, whatever the form and the
    components hold, so the registry is what they get resolved. *)
Theorem disabled_overrides_return_defaults
    (constants : gmap string entry) (dial : option (list (string * float)))
    (dialForm : bool) (inputs : list Frontend.number_input)
    (cellboard : list (string * list Frontend.board_component)) :
  adjusted_constants (simulate constants (Request dial (Some false))) = constants
  /\ COMPONENT_CONSTANTS_after (simulate constants (Request dial (Some false)))
     = constants
  /\ (forall toggle, toggle = Some false \/ toggle = None ->
        adjusted_constants
          (simulate constants
             (Frontend.runSimulationFromPlacedComponents dialForm toggle inputs
                cellboard))
        = constants
        /\ adjusted_constants
             (simulate constants (Frontend.runSimulation toggle inputs cellboard))
           = constants).
Proof.
  split; [reflexivity|]. split; [reflexivity|].
  intros toggle [-> | ->]; split; try reflexivity;
    unfold Frontend.runSimulationFromPlacedComponents;
    destruct dialForm; reflexivity.
Qed.

(** With overrides applied the module's own table changes with the copy,
    the inner dicts being shared. *)
Lemma registry_shared_after_overrides :
  strength_of "promoter_1"
    (COMPONENT_CONSTANTS_after
       (simulate default_constants (Request (Some example_dial) (Some true))))
  = Some 15%float.
Proof. vm_compute. reflexivity. Qed.

(** The toggle being off (or absent), both front ends send
    [apply_dial = false], and the back end then resolves to the registry it
    was given. *)
Lemma board_toggle_off (constants : gmap string entry) (dialForm : bool)
    (toggle : option bool) (inputs : list Frontend.number_input)
    (cellboard : list (string * list Frontend.board_component)) :
  Frontend.include_dial toggle = false ->
  adjusted_constants
    (simulate constants
       (Frontend.runSimulationFromPlacedComponents dialForm toggle inputs
          cellboard))
  = constants.
Proof.
  intros Hoff. unfold Frontend.runSimulationFromPlacedComponents. rewrite Hoff.
  destruct dialForm; reflexivity.
Qed.

Lemma designer_toggle_off (constants : gmap string entry)
    (toggle : option bool) (inputs : list Frontend.number_input)
    (cellboard : list (string * list Frontend.board_component)) :
  Frontend.include_dial toggle = false ->
  adjusted_constants
    (simulate constants (Frontend.runSimulation toggle inputs cellboard))
  = constants.
Proof.
  intros Hoff. unfold Frontend.runSimulation. rewrite Hoff. reflexivity.
Qed.

End OverridesFacts.

(** ** Circuit assembly *)

Module BuilderFacts.
Import Overrides Builder.

Lemma type_set_parameter (key : string) (value : float) (comp : Component) :
  type (set_parameter key value comp) = type comp.
Proof. reflexivity. Qed.

Lemma type_assign_parameters (constants : gmap string entry) (comp : Component) :
  type (assign_parameters constants comp) = type comp.
Proof.
  unfold assign_parameters.
  repeat case_match; reflexivity.
Qed.

Lemma any_cds_assign_parameters (constants : gmap string entry)
    (comps : list Component) :
  any_cds (assign_parameters constants <$> comps) = any_cds comps.
Proof.
  unfold any_cds. induction comps as [|c comps IH]; simpl; [reflexivity|].
  rewrite type_assign_parameters. f_equal. exact IH.
Qed.

Lemma finalize_without_cds (constants : gmap string entry)
    (circuits : list circuit) (comps : list Component) :
  any_cds comps = false ->
  (_finalize_block constants circuits comps).1 = circuits.
Proof.
  intros H. unfold _finalize_block.
  rewrite any_cds_assign_parameters, H. reflexivity.
Qed.

Lemma finalize_with_cds (constants : gmap string entry)
    (circuits : list circuit) (comps : list Component) :
  any_cds comps = true ->
  length (_finalize_block constants circuits comps).1 = S (length circuits).
Proof.
  intros H. unfold _finalize_block.
  rewrite any_cds_assign_parameters, H. simpl.
  rewrite length_app. simpl. lia.
Qed.

Section Loop.
Variable constants : gmap string entry.

Let step := build_step constants.

Lemma core_step (st1 st2 : loop_state) (item : option Component) :
  core st1 = core st2 -> core (step st1 item) = core (step st2 item).
Proof.
  unfold core. intros H. injection H as Hc Hb.
  destruct item as [comp|]; simpl.
  - rewrite Hc, Hb. reflexivity.
  - rewrite Hc, Hb. destruct (ls_block st2) as [|c blk]; simpl.
    + reflexivity.
    + destruct (_finalize_block constants (ls_circuits st2) (c :: blk)).
      reflexivity.
Qed.

Lemma core_foldl (l : list (option Component)) (st1 st2 : loop_state) :
  core st1 = core st2 -> core (foldl step st1 l) = core (foldl step st2 l).
Proof.
  revert st1 st2. induction l as [|item l IH]; intros st1 st2 H; simpl.
  - exact H.
  - apply IH, core_step, H.
Qed.

Lemma foldl_components (l : list Component) (st : loop_state) :
  foldl step st (Some <$> l)
  = LoopState (ls_circuits st) (ls_block st ++ l) (ls_items st).
Proof.
  revert st. induction l as [|c l IH]; intros st; simpl.
  - rewrite app_nil_r. destruct st; reflexivity.
  - rewrite IH. simpl. rewrite <- app_assoc. reflexivity.
Qed.

Lemma block_after_gap (st : loop_state) : ls_block (step st None) = [].
Proof.
  simpl. destruct (ls_block st) as [|c blk]; simpl; [reflexivity|].
  destruct (_finalize_block constants (ls_circuits st) (c :: blk)).
  reflexivity.
Qed.

Lemma block_after_prefix (pre : list (option Component)) (st : loop_state) :
  gap_before pre = true -> ls_block st = [] ->
  ls_block (foldl step st pre) = [].
Proof.
  unfold gap_before. intros Hgap Hst.
  destruct (last pre) as [[comp|]|] eqn:Hlast; try discriminate.
  - apply last_Some in Hlast as [pre' ->].
    rewrite foldl_app. simpl. apply block_after_gap.
  - apply last_None in Hlast as ->. exact Hst.
Qed.

Lemma skip_block_without_cds (blk : list Component) (st : loop_state) :
  ls_block st = [] -> any_cds blk = false ->
  core (step (foldl step st (Some <$> blk)) None) = core (step st None).
Proof.
  intros Hst Hcds. rewrite foldl_components, Hst. simpl.
  destruct blk as [|c blk]; simpl.
  - rewrite Hst. reflexivity.
  - pose proof (finalize_without_cds constants (ls_circuits st) (c :: blk) Hcds)
      as Hfin.
    destruct (_finalize_block constants (ls_circuits st) (c :: blk))
      as [circuits' comps'].
    simpl in Hfin. subst circuits'. rewrite Hst. reflexivity.
Qed.

End Loop.

Lemma gap_after_cons (post : list (option Component)) :
  gap_after post = true ->
  exists rest, (post ++ [None] = None :: rest)%list.
Proof.
  destruct post as [|[comp|] post]; simpl; intros H; try discriminate; eauto.
Qed.

(** C5: a block that lies between two boundaries and holds no CDS yields no
    circuit.  Finalizing it returns [self.circuits] as it was, and [build]
    produces the circuits it would produce without the block's parts; the
    call returns in every case. *)
Theorem block_without_cds_yields_no_circuit
    (constants : gmap string entry) (circuits0 : list circuit)
    (pre post : list (option Component)) (blk : list Component) :
  gap_before pre = true -> gap_after post = true -> any_cds blk = false ->
  (forall cs, (_finalize_block constants cs blk).1 = cs)
  /\ circuits (build_blocks
                (mkBuilder constants (pre ++ (Some <$> blk) ++ post) circuits0))
     = circuits (build_blocks (mkBuilder constants (pre ++ post) circuits0)).
Proof.
  intros Hpre Hpost Hcds. split.
  - intros cs. apply finalize_without_cds, Hcds.
  - unfold build_blocks. simpl.
    destruct (gap_after_cons post Hpost) as [rest Hrest].
    rewrite <- !app_assoc, Hrest.
    rewrite !foldl_app.
    set (st := foldl (build_step constants) (LoopState circuits0 [] []) pre).
    assert (Hst : ls_block st = []).
    { subst st. apply block_after_prefix; [exact Hpre|reflexivity]. }
    simpl.
    pose proof (core_foldl constants rest _ _
                  (skip_block_without_cds constants blk st Hst Hcds)) as H.
    unfold core in H. simpl in H. injection H as Hc _. exact Hc.
Qed.

Lemma block_without_cds_yields_no_circuit_witness :
  circuits (build_blocks
    (new_builder default_constants
       ([Some (part "promoter_1" "promoter" 0); Some (part "rbs_1" "rbs" 1);
         Some (part "cds_1" "cds" 2); None]
        ++ (Some <$> [part "promoter_1" "promoter" 4; part "rbs_1" "rbs" 5])
        ++ [None; Some (part "cds_1" "cds" 7)])))
  = circuits (build_blocks
      (new_builder default_constants
         ([Some (part "promoter_1" "promoter" 0); Some (part "rbs_1" "rbs" 1);
           Some (part "cds_1" "cds" 2); None]
          ++ [None; Some (part "cds_1" "cds" 7)]))).
Proof.
  apply (block_without_cds_yields_no_circuit default_constants []
           [Some (part "promoter_1" "promoter" 0); Some (part "rbs_1" "rbs" 1);
            Some (part "cds_1" "cds" 2); None]
           [None; Some (part "cds_1" "cds" 7)]
           [part "promoter_1" "promoter" 4; part "rbs_1" "rbs" 5]);
    reflexivity.
Defined.

End BuilderFacts.

(** ** Regulation resolution *)

Module RegulationFacts.
Import Overrides Builder Regulation RegulationExamples.

Lemma mapM_total {A B : Type} (f : A -> option B) (g : A -> B) (l : list A) :
  (forall x, x ∈ l -> f x = Some (g x)) -> mapM f l = Some (g <$> l).
Proof.
  intros H. apply mapM_Some. induction l as [|x l IH]; simpl.
  - constructor.
  - constructor.
    + apply H. left.
    + apply IH. intros y Hy. apply H. right. exact Hy.
Qed.

Lemma floating_record_start (fam : regulator_family) (start0 : Component)
    (comp : component_dict) :
  head (starts fam) = Some start0 ->
  floating_record fam comp
  = Some (mkRegulation ("environmental_" ++ Py.str_opt (reg_type fam))
            (Some (label start0)) [cd_name comp] ∅).
Proof. intros H. unfold floating_record. rewrite H. reflexivity. Qed.

Lemma join_fmap_promoters {B : Type} (g : component_dict -> B)
    (circuits : list circuit) :
  mjoin ((fun c => g <$> filter (fun comp => is_promoter comp = true)
                         (c_components c)) <$> circuits)
  = g <$> promoters_of circuits.
Proof.
  unfold promoters_of. induction circuits as [|c circuits IH]; simpl.
  - reflexivity.
  - rewrite fmap_app. f_equal. exact IH.
Qed.

Lemma floating_regulations_records (fam : regulator_family)
    (start0 : Component) (circuits : list circuit) :
  head (starts fam) = Some start0 ->
  floating_regulations fam circuits
  = Some ((fun comp =>
             mkRegulation ("environmental_" ++ Py.str_opt (reg_type fam))
               (Some (label start0)) [cd_name comp] ∅)
          <$> promoters_of circuits).
Proof.
  intros Hstart. unfold floating_regulations.
  erewrite (mapM_total _
              (fun c => (fun comp =>
                 mkRegulation ("environmental_" ++ Py.str_opt (reg_type fam))
                   (Some (label start0)) [cd_name comp] ∅)
                <$> filter (fun comp => is_promoter comp = true)
                      (c_components c))).
  - simpl. f_equal. apply join_fmap_promoters.
  - intros c _. apply mapM_total. intros comp _.
    apply floating_record_start, Hstart.
Qed.



Section ResolverFacts.
Context {gene : Type}.
Variable extract_gene_from_regulator : string -> gene.
Variable matches_gene : string -> gene -> bool.
Variable find_promoter_before : component_dict -> option string.
Variable find_promoter_after : component_dict -> option string.

(** C6, as the code has it: a floating family with a first start emits, for
    every promoter of every circuit and in order, exactly one record; its
    kind is "environmental_" followed by the family's type string, hence
    environmental_repression or environmental_activation for the types
    "repression" and "activation"; its source is the label of the family's
    first start instance. *)
Theorem floating_family_records
    (b : builder) (st : resolver_state) (reg_key : string)
    (fam : regulator_family) (start0 : Component) :
  is_floating fam = Some true ->
  head (starts fam) = Some start0 ->
  family_regulations extract_gene_from_regulator matches_gene
    find_promoter_before find_promoter_after b st (reg_key, fam)
  = Some (mkResolver (rs_target_promoter st)
            (rs_regulations st
             ++ ((fun comp =>
                    mkRegulation
                      ("environmental_" ++ Py.str_opt (reg_type fam))
                      (Some (label start0)) [cd_name comp] ∅)
                 <$> promoters_of (circuits b)))%list)
  /\ (reg_type fam = Some "repression" ->
      "environmental_" ++ Py.str_opt (reg_type fam) = "environmental_repression")
  /\ (reg_type fam = Some "activation" ->
      "environmental_" ++ Py.str_opt (reg_type fam) = "environmental_activation").
Proof.
  intros Hfloat Hstart. split; [|split].
  - unfold family_regulations. simpl. rewrite Hfloat.
    rewrite bool_decide_eq_true_2 by reflexivity.
    rewrite (floating_regulations_records fam start0 _ Hstart). reflexivity.
  - intros ->. reflexivity.
  - intros ->. reflexivity.
Qed.

(** *** Positional regulators *)






End ResolverFacts.

Lemma floating_family_records_witness :
  family_regulations (fun _ => tt) (fun _ _ => false) (fun _ => None)
    (fun _ => None) (mkBuilder ∅ [] [one_promoter_circuit])
    (mkResolver None []) ("floating_repressor", floating_repressor)
  = Some (mkResolver None
            [mkRegulation "environmental_repression"
               (Some "floating_repressor") ["promoter_1"] ∅]).
Proof.
  apply (floating_family_records (fun _ => tt) (fun _ _ => false)
           (fun _ => None) (fun _ => None)
           (mkBuilder ∅ [] [one_promoter_circuit]) (mkResolver None [])
           "floating_repressor" floating_repressor
           (mkComponent "floating_repressor" "repressor" "repressor_A3" true
              None (Some "floating_repressor") 3 ∅ None));
    reflexivity.
Defined.

(** C6, as stated, fails: the record that the floating repressor family
    emits for promoter_1 names the family's start instance as its source;
    no emitted record has a null source. *)
Lemma floating_source_is_not_null :
  ~ (forall (fam : regulator_family) (circuits : list circuit)
            (regs : list regulation),
        is_floating fam = Some true ->
        floating_regulations fam circuits = Some regs ->
        forall comp, comp ∈ promoters_of circuits ->
          exists r, r ∈ regs /\ r_targets r = [cd_name comp]
                    /\ (r_type r = "environmental_repression"
                        \/ r_type r = "environmental_activation")
                    /\ r_source r = None).
Proof.
  intros H.
  destruct (H floating_repressor [one_promoter_circuit]
              [mkRegulation "environmental_repression"
                 (Some "floating_repressor") ["promoter_1"] ∅]
              eq_refl eq_refl
              (mkDict "promoter_A0" "promoter" "promoter_1" ∅))
    as (r & Hr & _ & _ & Hsrc).
  - left.
  - apply list_elem_of_singleton in Hr. subst r. discriminate Hsrc.
Qed.





(** *** The constitutive fallback *)

Lemma existsb_targets_count (p : option string) (regs : list regulation) :
  existsb (targets_promoter p) regs = negb (count_targeting p regs =? 0)%nat.
Proof.
  unfold count_targeting. induction regs as [|r regs IH]; simpl.
  - reflexivity.
  - rewrite filter_cons. destruct (decide (targets_promoter p r = true)) as [Hr|Hr].
    + rewrite Hr. reflexivity.
    + apply not_true_is_false in Hr. rewrite Hr. exact IH.
Qed.

Lemma targets_constitutive (q p : option string) :
  targets_promoter q (constitutive_record p) = bool_decide (q = p).
Proof.
  unfold targets_promoter, constitutive_record.
  destruct q as [q|], p as [p|]; simpl; try reflexivity.
  apply bool_decide_ext. rewrite list_elem_of_singleton.
  split; [intros ->; reflexivity|intros H; inversion H; reflexivity].
Qed.

Lemma filter_add_step (q : option string) (regs : list regulation)
    (pair : option string * string) :
  filter (fun r => targets_promoter q r = true) (add_step regs pair)
  = (filter (fun r => targets_promoter q r = true) regs
     ++ if (count_targeting q regs =? 0)%nat && bool_decide (q = pair.1)
        then [constitutive_record q] else [])%list.
Proof.
  unfold add_step. rewrite existsb_targets_count.
  destruct (bool_decide (q = pair.1)) eqn:Hq.
  - apply bool_decide_eq_true in Hq. subst q.
    destruct (count_targeting pair.1 regs =? 0)%nat; simpl.
    + rewrite filter_app. f_equal. rewrite filter_cons, filter_nil.
      rewrite targets_constitutive.
      rewrite bool_decide_eq_true_2 by reflexivity.
      rewrite decide_True by reflexivity. reflexivity.
    + rewrite app_nil_r. reflexivity.
  - rewrite andb_false_r, app_nil_r.
    destruct (negb (count_targeting pair.1 regs =? 0)%nat); [reflexivity|].
    rewrite filter_app, filter_cons, filter_nil.
    rewrite targets_constitutive, Hq.
    rewrite decide_False by discriminate. apply app_nil_r.
Qed.

Lemma count_add_step (q : option string) (regs : list regulation)
    (pair : option string * string) :
  count_targeting q (add_step regs pair)
  = (count_targeting q regs
     + if (count_targeting q regs =? 0)%nat && bool_decide (q = pair.1)
       then 1 else 0)%nat.
Proof.
  unfold count_targeting at 1. rewrite filter_add_step, length_app.
  fold (count_targeting q regs).
  destruct ((count_targeting q regs =? 0)%nat && bool_decide (q = pair.1));
    reflexivity.
Qed.

Lemma filter_add_constitutive (q : option string)
    (pairs : list (option string * string)) (regs : list regulation) :
  filter (fun r => targets_promoter q r = true) (foldl add_step regs pairs)
  = (filter (fun r => targets_promoter q r = true) regs
     ++ if (count_targeting q regs =? 0)%nat && bool_decide (q ∈ pairs.*1)
        then [constitutive_record q] else [])%list.
Proof.
  revert regs. induction pairs as [|pair pairs IH]; intros regs; simpl.
  - rewrite andb_false_r, app_nil_r. reflexivity.
  - rewrite IH, filter_add_step, count_add_step.
    destruct (count_targeting q regs =? 0)%nat eqn:Hn; simpl.
    + destruct (bool_decide (q = pair.1)) eqn:Hq; simpl.
      * rewrite Nat.add_1_r. simpl. rewrite app_nil_r.
        rewrite bool_decide_eq_true_2; [reflexivity|].
        apply bool_decide_eq_true in Hq. rewrite Hq. left.
      * rewrite Nat.add_0_r, Hn. simpl. rewrite app_nil_r.
        f_equal. apply bool_decide_eq_false in Hq.
        destruct (bool_decide (q ∈ pairs.*1)) eqn:Hin.
        -- apply bool_decide_eq_true in Hin.
           rewrite bool_decide_eq_true_2; [reflexivity|]. right. exact Hin.
        -- apply bool_decide_eq_false in Hin.
           rewrite bool_decide_eq_false_2; [reflexivity|].
           intros H. apply elem_of_cons in H as [H|H]; contradiction.
    + rewrite Nat.add_0_r, Hn. simpl. rewrite !app_nil_r. reflexivity.
Qed.


(** A record of the positional case is assigned to the promoter it
    targets, so the fallback adds none for that promoter. *)
Lemma positional_record_is_assigned (constants : gmap string entry)
    (fam : regulator_family) (cds : component_dict) (p : string)
    (r : regulation) (circuits : list circuit) (regs : list regulation) :
  positional_record constants fam cds (Some p) = Some r ->
  r ∈ regs ->
  filter (fun r => targets_promoter (Some p) r = true)
    (_add_constitutive_regulations circuits regs)
  = filter (fun r => targets_promoter (Some p) r = true) regs.
Proof.
  intros Hrecord Hin. unfold _add_constitutive_regulations.
  rewrite filter_add_constitutive.
  assert (Hcount : (count_targeting (Some p) regs =? 0)%nat = false).
  { apply Nat.eqb_neq. unfold count_targeting. intros Hlen.
    apply nil_length_inv in Hlen.
    assert (Hr : r ∈ filter (fun r => targets_promoter (Some p) r = true) regs).
    { apply list_elem_of_filter. split; [|exact Hin].
      unfold positional_record in Hrecord.
      destruct (head (starts fam)); [|discriminate].
      simpl in Hrecord. inversion Hrecord; subst. simpl.
      apply bool_decide_eq_true_2. left. }
    rewrite Hlen in Hr. inversion Hr. }
  rewrite Hcount. simpl. apply app_nil_r.
Qed.



End RegulationFacts.

(** ** ODE set-up *)

Module OdeFacts.
Import Builder Ode.



Lemma single_gene_built :
  circuits (build_blocks (new_builder Overrides.default_constants
                            single_gene_items))
  = [single_gene_circuit].
Proof. vm_compute. reflexivity. Qed.




(** The architecture notes' listing multiplies by the translation rate as
    well; it differs in the basal rate. *)
Lemma notes_listing_kprod (promoter rbs comp : component_dict)
    (pars : cds_parameters) :
  cds_entry_notes promoter rbs comp = Some pars ->
  exists pars',
    cds_entry promoter rbs comp = Some pars'
    /\ kprod pars' = kprod pars
    /\ k0 pars = (0.01 * kprod pars)%float.
Proof.
  unfold cds_entry_notes, cds_entry.
  destruct (cd_parameters promoter !! "strength") as [s|]; [|discriminate].
  destruct (cd_parameters rbs !! "efficiency") as [e|]; [|discriminate].
  destruct (cd_parameters comp !! "translation_rate") as [t|]; [|discriminate].
  destruct (cd_parameters comp !! "degradation_rate") as [d|]; [|discriminate].
  destruct (cd_parameters comp !! "init_conc") as [i|]; [|discriminate].
  simpl. intros H. inversion H; subst; clear H. simpl.
  eexists. split; [reflexivity|]. split; reflexivity.
Qed.

(** C8: with Kr = 0.5 and n = 2 the repression factor
    [Kr**n / (Kr**n + source**n)] is exactly 1.0 at source concentration 0
    and is below 0.02 at source concentration 5.0. *)
Theorem hill_repression_boundary :
  hill_repression 0.5 2 0 = 1%float
  /\ PrimFloat.ltb (hill_repression 0.5 2 5) 0.02 = true.
Proof. split; vm_compute; reflexivity. Qed.

(** A single repression record makes [rhs] weigh the production term by the
    repression factor of its source. *)
Lemma f_vals_single_repression (cds_ids : list string) (p : list float)
    (src kind : string) (h : hill_parameters) (idx : nat) (conc : float) :
  index_of src cds_ids = Some idx -> p !! idx = Some conc ->
  Py.contains "repression" kind = true ->
  (f_total ∘ snd) <$>
    f_vals_loop cds_ids p [mkOdeRegulation (Some src) kind h] None []
  = Some (hill_repression (Kd h) (n h) conc).
Proof.
  intros Hidx Hconc Hkind. simpl. rewrite Hidx. simpl. rewrite Hconc. simpl.
  rewrite Hkind. reflexivity.
Qed.

(** The three-gene case: an all-zero state of three proteins with feedback
    is replaced by the seed 1.0, 0.1, 0.05. *)
Lemma three_gene_seed (p0 : list float) :
  length p0 = 3%nat -> all_zero p0 = true ->
  initial_state true p0 = [1.0; 0.1; 0.05]%float
  /\ initial_state true p0 = cycled_seed 3.
Proof.
  intros Hlen Hzero. unfold initial_state. rewrite Hlen, Hzero.
  split; reflexivity.
Qed.

(** C9 at a ring of four genes with all initial concentrations zero: the
    state handed to the integrator is the three-element list 1.0, 0.1,
    0.05, not the seed cycled to four entries, and [rhs] raises on it. *)
Theorem four_gene_ring_seed_too_short :
  initial_state true [0; 0; 0; 0]%float = [1.0; 0.1; 0.05]%float
  /\ length (initial_state true [0; 0; 0; 0]%float) = 3%nat
  /\ length (cycled_seed 4) = 4%nat
  /\ rhs ring4_ids ring4_params ring4_reg_map
       (initial_state true [0; 0; 0; 0]%float) = None
  /\ is_Some (rhs ring4_ids ring4_params ring4_reg_map (cycled_seed 4)).
Proof.
  repeat split; try (vm_compute; reflexivity).
  vm_compute. eexists. reflexivity.
Qed.

End OdeFacts.

(** ** The board state *)

Module BoardFacts.
Import Board.




Lemma splice_first_last (pred : component -> bool) (arr : list component)
    (comp : component) :
  Forall (fun c => pred c = false) arr -> pred comp = true ->
  splice_first pred (arr ++ [comp]) = (arr, Some comp).
Proof.
  intros Harr Hcomp. unfold splice_first.
  assert (Hnone : list_find (fun c => pred c = true) arr = None).
  { apply list_find_None. eapply Forall_impl; [exact Harr|].
    simpl. intros c Hc. congruence. }
  rewrite (list_find_app_r _ _ _ Hnone). simpl.
  rewrite decide_True by exact Hcomp. simpl.
  f_equal. replace (0 + length arr)%nat with (length arr + 0)%nat by lia.
  rewrite delete_middle. apply app_nil_r.
Qed.






End BoardFacts.

(** * Further properties *)

(** ** Parameter override resolution: labels, types, sharing *)

Module OverridesMore.
Import Overrides.

Lemma lookup_apply_component_overrides
    (co : gmap string (gmap string float)) (adjusted : gmap string entry)
    (k : string) :
  apply_component_overrides co adjusted !! k
  = match co !! k with
    | Some overrides => override_entry overrides <$> adjusted !! k
    | None => adjusted !! k
    end.
Proof.
  unfold apply_component_overrides. revert k.
  apply (map_fold_weak_ind
           (fun r co' => forall k,
              r !! k = match co' !! k with
                       | Some overrides => override_entry overrides <$> adjusted !! k
                       | None => adjusted !! k
                       end)).
  - intros k. rewrite lookup_empty. reflexivity.
  - intros i x co' r Hi IH k. destruct (decide (i = k)) as [->|Hne].
    + rewrite lookup_alter_eq, lookup_insert_eq, IH, Hi. reflexivity.
    + rewrite lookup_alter_ne, lookup_insert_ne by exact Hne. apply IH.
Qed.

Lemma e_type_scale_field (ty field : string) (k : float) (e : entry) :
  e_type (scale_field ty field k e) = e_type e.
Proof.
  unfold scale_field. destruct (bool_decide (e_type e = Some ty)); [|reflexivity].
  destruct (e_fields e !! field); reflexivity.
Qed.

(** The resolved registry has the labels of the registry it was given, each
    with the type it had: an override for a label that the registry lacks
    adds no entry, and no entry is dropped or retyped. *)
Theorem simulate_keeps_labels_and_types
    (constants : gmap string entry) (data : request) (k : string) :
  e_type <$> adjusted_constants (simulate constants data) !! k
  = e_type <$> constants !! k.
Proof.
  unfold simulate.
  destruct (apply_dial_of data && truthy (dial_of data)); [|reflexivity].
  simpl. unfold apply_global_multipliers.
  rewrite lookup_fmap, lookup_apply_component_overrides.
  destruct (component_overrides (dial_of data) !! k) as [ov|];
    destruct (constants !! k) as [e|]; simpl; try reflexivity;
    rewrite !e_type_scale_field; reflexivity.
Qed.

Lemma scaled_promoter (gt gd : float) (e : entry) (s : float) :
  e_type e = Some "promoter" -> e_fields e !! "strength" = Some s ->
  scale_field "cds" "degradation_rate" gd (scale_field "promoter" "strength" gt e)
  = Entry (Some "promoter") (<["strength" := (s * gt)%float]> (e_fields e)).
Proof.
  intros Ht Hs. unfold scale_field at 2. rewrite Ht, Hs.
  rewrite bool_decide_eq_true_2 by reflexivity.
  unfold scale_field. simpl.
  rewrite ?bool_decide_eq_false_2 by discriminate. reflexivity.
Qed.

Lemma scaled_cds (gt gd : float) (e : entry) (d : float) :
  e_type e = Some "cds" -> e_fields e !! "degradation_rate" = Some d ->
  scale_field "cds" "degradation_rate" gd (scale_field "promoter" "strength" gt e)
  = Entry (Some "cds") (<["degradation_rate" := (d * gd)%float]> (e_fields e)).
Proof.
  intros Ht Hd. unfold scale_field at 2. rewrite Ht.
  rewrite bool_decide_eq_false_2 by discriminate.
  unfold scale_field. rewrite Ht, Hd.
  rewrite bool_decide_eq_true_2 by reflexivity. reflexivity.
Qed.

Lemma simulate_applied (constants : gmap string entry)
    (dial : list (string * float)) :
  truthy dial = true ->
  simulate constants (Request (Some dial) (Some true))
  = Resolved
      (apply_global_multipliers dial
         (apply_component_overrides (component_overrides dial) constants))
      (apply_global_multipliers dial
         (apply_component_overrides (component_overrides dial) constants)).
Proof.
  intros H. unfold simulate.
  change (dial_of (Request (Some dial) (Some true))) with dial.
  change (apply_dial_of (Request (Some dial) (Some true))) with true.
  rewrite H. reflexivity.
Qed.

(** A promoter without a per-instance override gets its strength multiplied
    by the global transcription rate, and, the inner dicts of the registry
    being shared with the copy, a second request with the same dial against
    the module's table multiplies the already multiplied strength again. *)
Theorem global_multiplier_compounds
    (constants : gmap string entry) (dial : list (string * float))
    (lbl : string) (e : entry) (s : float) :
  truthy dial = true ->
  constants !! lbl = Some e ->
  e_type e = Some "promoter" ->
  e_fields e !! "strength" = Some s ->
  component_overrides dial !! lbl = None ->
  let g := dial_get "global_transcription_rate" 1%float dial in
  let r1 := simulate constants (Request (Some dial) (Some true)) in
  let r2 := simulate (COMPONENT_CONSTANTS_after r1)
              (Request (Some dial) (Some true)) in
  strength_of lbl (adjusted_constants r1) = Some (s * g)%float
  /\ strength_of lbl (COMPONENT_CONSTANTS_after r1) = Some (s * g)%float
  /\ strength_of lbl (adjusted_constants r2) = Some (s * g * g)%float.
Proof.
  intros Hdial Hl Ht Hs Hco g r1 r2.
  assert (H1 : adjusted_constants r1 !! lbl
               = Some (Entry (Some "promoter")
                         (<["strength" := (s * g)%float]> (e_fields e)))).
  { subst r1. rewrite (simulate_applied _ _ Hdial). simpl.
    unfold apply_global_multipliers.
    rewrite lookup_fmap, lookup_apply_component_overrides, Hco, Hl. simpl.
    rewrite (scaled_promoter _ _ e s Ht Hs). reflexivity. }
  assert (Hafter : COMPONENT_CONSTANTS_after r1 = adjusted_constants r1).
  { subst r1. rewrite (simulate_applied _ _ Hdial). reflexivity. }
  split; [|split].
  - unfold strength_of. rewrite H1. simpl. apply lookup_insert_eq.
  - rewrite Hafter. unfold strength_of. rewrite H1. simpl. apply lookup_insert_eq.
  - subst r2. rewrite Hafter, (simulate_applied _ _ Hdial). simpl.
    unfold strength_of, apply_global_multipliers.
    rewrite lookup_fmap, lookup_apply_component_overrides, Hco, H1. simpl.
    rewrite (scaled_promoter _ _ _ (s * g)%float);
      [|reflexivity|apply lookup_insert_eq].
    simpl. apply lookup_insert_eq.
Qed.

Lemma global_multiplier_compounds_witness :
  strength_of "promoter_1"
    (adjusted_constants
       (simulate default_constants
          (Request (Some [("global_transcription_rate", 1.5%float)]) (Some true))))
  = Some 7.5%float
  /\ strength_of "promoter_1"
       (adjusted_constants
          (simulate
             (COMPONENT_CONSTANTS_after
                (simulate default_constants
                   (Request (Some [("global_transcription_rate", 1.5%float)])
                      (Some true))))
             (Request (Some [("global_transcription_rate", 1.5%float)])
                (Some true))))
     = Some 11.25%float.
Proof.
  destruct (global_multiplier_compounds default_constants
              [("global_transcription_rate", 1.5%float)] "promoter_1"
              (Entry (Some "promoter") {[ "strength" := 5%float ]}) 5%float)
    as (H1 & _ & H2); try (vm_compute; reflexivity).
  split; [exact H1|exact H2].
Defined.

Lemma component_overrides_cds (v g : float) :
  component_overrides
    [("cds1_degradation_rate", v); ("global_degradation_rate", g)]
  = {[ "cds_1" := {[ "degradation_rate" := v ]} ]}.
Proof. vm_compute. reflexivity. Qed.

(** The CDS path composes like the promoter path: with the dial
    [{cds1_degradation_rate: v, global_degradation_rate: g}] the degradation
    rate resolved for cds_1 is [v * g], whatever the registry held before,
    and every other field of cds_1 is left as it was. *)
Theorem degradation_override_then_multiplier
    (constants : gmap string entry) (e : entry) (v g : float) :
  constants !! "cds_1" = Some e ->
  e_type e = Some "cds" ->
  let r := simulate constants
             (Request (Some [("cds1_degradation_rate", v);
                             ("global_degradation_rate", g)]) (Some true)) in
  exists e',
    adjusted_constants r !! "cds_1" = Some e'
    /\ e_fields e' !! "degradation_rate" = Some (v * g)%float
    /\ forall field, field <> "degradation_rate" ->
         e_fields e' !! field = e_fields e !! field.
Proof.
  intros Hl Ht r. subst r. rewrite simulate_applied by reflexivity. simpl.
  unfold apply_global_multipliers.
  eexists. split.
  - rewrite lookup_fmap, lookup_apply_component_overrides.
    rewrite component_overrides_cds, lookup_singleton_eq, Hl. simpl.
    rewrite (scaled_cds _ _ _ v); [reflexivity|exact Ht|].
    simpl. apply lookup_union_Some_l, lookup_singleton_eq.
  - simpl. split; [apply lookup_insert_eq|].
    intros field Hf. rewrite lookup_insert_ne by congruence.
    rewrite lookup_union_r; [reflexivity|].
    apply lookup_singleton_ne. congruence.
Qed.

Lemma degradation_override_then_multiplier_witness :
  exists e',
    adjusted_constants
      (simulate default_constants
         (Request (Some [("cds1_degradation_rate", 0.5%float);
                         ("global_degradation_rate", 2%float)]) (Some true)))
      !! "cds_1" = Some e'
    /\ e_fields e' !! "degradation_rate" = Some 1%float.
Proof.
  destruct (degradation_override_then_multiplier default_constants
              (Entry (Some "cds")
                 {[ "degradation_rate" := 1%float;
                    "translation_rate" := 7%float;
                    "init_conc" := 0%float ]}) 0.5%float 2%float)
    as (e' & He' & Hd & _); try (vm_compute; reflexivity).
  exists e'. split; [exact He'|exact Hd].
Defined.

End OverridesMore.

(** ** Circuit assembly: names, parameters, completeness *)

Module BuilderMore.
Import Overrides Builder BuilderNotions.

Lemma foldl_circuits_invariant (constants : gmap string entry)
    (P : list circuit -> Prop) :
  (forall cs comps, P cs -> P (_finalize_block constants cs comps).1) ->
  forall (l : list (option Component)) (st : loop_state),
    P (ls_circuits st) -> P (ls_circuits (foldl (build_step constants) st l)).
Proof.
  intros Hfin l. induction l as [|item l IH]; intros st HP; simpl; [exact HP|].
  apply IH. destruct item as [comp|]; simpl; [exact HP|].
  destruct (ls_block st) as [|c blk] eqn:Hblk; simpl; [exact HP|].
  specialize (Hfin (ls_circuits st) (c :: blk) HP).
  destruct (_finalize_block constants (ls_circuits st) (c :: blk)). exact Hfin.
Qed.

Lemma build_circuits_invariant (P : list circuit -> Prop) (b : builder) :
  (forall cs comps, P cs -> P (_finalize_block (constants b) cs comps).1) ->
  P (circuits b) -> P (circuits (build_blocks b)).
Proof.
  intros Hfin HP. unfold build_blocks. simpl.
  apply foldl_circuits_invariant; assumption.
Qed.

(** The circuits are named in the order of their finalization:
    the i-th circuit of a fresh builder is "circuit_" followed by i
    (counting from 1). *)
Theorem circuit_names_sequential (constants : gmap string entry)
    (items : list (option Component)) (i : nat) (c : circuit) :
  circuits (build_blocks (new_builder constants items)) !! i = Some c ->
  c_name c = "circuit_" ++ pretty (i + 1).
Proof.
  revert i c.
  apply (build_circuits_invariant
           (fun cs => forall i c, cs !! i = Some c ->
                        c_name c = "circuit_" ++ pretty (i + 1))).
  - intros cs comps IH i c. unfold _finalize_block.
    destruct (negb (any_cds (assign_parameters _ <$> comps))); simpl;
      [apply IH|].
    intros H. apply lookup_app_Some in H as [H|[Hlen H]]; [apply IH, H|].
    apply list_lookup_singleton_Some in H as [Hi <-]. simpl.
    unfold next_circuit_name. do 2 f_equal. lia.
  - simpl. intros i c H. rewrite lookup_nil in H. discriminate.
Qed.

Lemma circuit_names_sequential_witness :
  c_name Ode.single_gene_circuit = "circuit_" ++ pretty (0 + 1).
Proof.
  apply (circuit_names_sequential default_constants Ode.single_gene_items 0
           Ode.single_gene_circuit).
  vm_compute. reflexivity.
Defined.

Lemma populated_assigned (constants : gmap string entry) (name : string)
    (comp : Component) :
  populated constants
    (to_dict (set_circuit_name name (assign_parameters constants comp))).
Proof.
  unfold populated, assign_parameters. simpl.
  destruct (String.eqb (type comp) "promoter") eqn:Hp.
  { apply String.eqb_eq in Hp. simpl. rewrite Hp.
    split; [intros _; apply lookup_insert_eq|].
    split; intros H; discriminate H. }
  destruct (String.eqb (type comp) "rbs") eqn:Hr.
  { apply String.eqb_eq in Hr. simpl. rewrite Hr.
    split; [intros H; discriminate H|].
    split; [intros _; apply lookup_insert_eq|intros H; discriminate H]. }
  destruct (String.eqb (type comp) "cds") eqn:Hc.
  { apply String.eqb_eq in Hc. simpl. rewrite Hc.
    split; [intros H; discriminate H|].
    split; [intros H; discriminate H|]. intros _.
    split.
    - rewrite lookup_insert_ne by discriminate. apply lookup_insert_eq.
    - apply lookup_insert_eq. }
  apply String.eqb_neq in Hp, Hr, Hc. simpl.
  split; [intros H; contradiction|].
  split; intros H; contradiction.
Qed.

(** Every component of every circuit that [build] produces carries the
    parameters of its type: a promoter its strength, an RBS its efficiency,
    a CDS its translation rate and degradation rate, each the registry's
    value for the component's label or, where the registry has none, the
    default 1.0, 1.0, 5.0 and 0.1. *)
Theorem built_components_populated (constants : gmap string entry)
    (items : list (option Component)) (c : circuit) (d : component_dict) :
  c ∈ circuits (build_blocks (new_builder constants items)) ->
  d ∈ c_components c ->
  populated constants d.
Proof.
  revert c d.
  apply (build_circuits_invariant
           (fun cs => forall c d, c ∈ cs -> d ∈ c_components c ->
                        populated constants d)).
  - intros cs comps IH c d. unfold _finalize_block. simpl.
    destruct (negb (any_cds (assign_parameters constants <$> comps))); simpl;
      [apply IH|].
    intros Hc Hd. apply elem_of_app in Hc as [Hc|Hc]; [exact (IH c d Hc Hd)|].
    apply list_elem_of_singleton in Hc. subst c. simpl in Hd.
    apply list_elem_of_fmap in Hd as (comp2 & -> & Hcomp2).
    apply list_elem_of_fmap in Hcomp2 as (comp1 & -> & Hcomp1).
    apply list_elem_of_fmap in Hcomp1 as (comp & -> & _).
    apply populated_assigned.
  - simpl. intros c d Hc. inversion Hc.
Qed.

Lemma built_components_populated_witness :
  populated default_constants Ode.cds_1.
Proof.
  apply (built_components_populated default_constants Ode.single_gene_items
           Ode.single_gene_circuit).
  - rewrite OdeFacts.single_gene_built. left.
  - right. right. left.
Defined.

Lemma holds_cds_finalized (constants : gmap string entry) (name : string)
    (comps : list Component) :
  existsb (fun d => String.eqb (cd_type d) "cds")
    (to_dict <$> (set_circuit_name name <$> (assign_parameters constants <$> comps)))
  = any_cds comps.
Proof.
  unfold any_cds. induction comps as [|comp comps IH]; simpl; [reflexivity|].
  rewrite BuilderFacts.type_assign_parameters. f_equal. exact IH.
Qed.

(** Every circuit that [build] produces holds at least one CDS. *)
Theorem built_circuits_hold_cds (constants : gmap string entry)
    (items : list (option Component)) (c : circuit) :
  c ∈ circuits (build_blocks (new_builder constants items)) ->
  holds_cds c = true.
Proof.
  revert c.
  apply (build_circuits_invariant
           (fun cs => forall c, c ∈ cs -> holds_cds c = true)).
  - intros cs comps IH c. unfold _finalize_block. simpl.
    destruct (any_cds (assign_parameters constants <$> comps)) eqn:Hcds; simpl;
      [|apply IH].
    intros Hc. apply elem_of_app in Hc as [Hc|Hc]; [exact (IH c Hc)|].
    apply list_elem_of_singleton in Hc. subst c. unfold holds_cds. simpl.
    rewrite holds_cds_finalized.
    rewrite BuilderFacts.any_cds_assign_parameters in Hcds. exact Hcds.
  - simpl. intros c Hc. inversion Hc.
Qed.

Lemma built_circuits_hold_cds_witness :
  holds_cds Ode.single_gene_circuit = true.
Proof.
  apply (built_circuits_hold_cds default_constants Ode.single_gene_items).
  rewrite OdeFacts.single_gene_built. left.
Defined.

Lemma skeleton_assign_parameters (constants : gmap string entry)
    (comp : Component) :
  skeleton (assign_parameters constants comp) = skeleton comp.
Proof.
  unfold assign_parameters. repeat case_match; reflexivity.
Qed.

Lemma skeleton_finalized (constants : gmap string entry)
    (cs : list circuit) (comps : list Component) :
  skeleton <$> (_finalize_block constants cs comps).2 = skeleton <$> comps.
Proof.
  unfold _finalize_block.
  destruct (negb (any_cds (assign_parameters constants <$> comps))); simpl.
  - rewrite <- list_fmap_compose. apply list_fmap_ext.
    intros i comp _. apply skeleton_assign_parameters.
  - rewrite <- !list_fmap_compose. apply list_fmap_ext.
    intros i comp _. simpl.
    rewrite <- (skeleton_assign_parameters constants comp). reflexivity.
Qed.

Lemma skeletons_parts (l : list Component) :
  skeletons (Some <$> l) = Some <$> (skeleton <$> l).
Proof.
  unfold skeletons. induction l as [|c l IH]; simpl; [reflexivity|].
  f_equal. exact IH.
Qed.

Lemma skeletons_app (l1 l2 : list (option Component)) :
  skeletons (l1 ++ l2) = (skeletons l1 ++ skeletons l2)%list.
Proof. unfold skeletons. apply fmap_app. Qed.

Lemma skeletons_step (constants : gmap string entry) (st : loop_state)
    (item : option Component) :
  (skeletons (ls_items (build_step constants st item))
   ++ skeletons (Some <$> ls_block (build_step constants st item))
   = (skeletons (ls_items st) ++ skeletons (Some <$> ls_block st))
     ++ [skeleton <$> item])%list.
Proof.
  destruct item as [comp|]; simpl.
  - rewrite fmap_app, skeletons_app, app_assoc. reflexivity.
  - destruct (ls_block st) as [|c blk] eqn:Hblk; simpl.
    + rewrite skeletons_app, !app_nil_r. reflexivity.
    + pose proof (skeleton_finalized constants (ls_circuits st) (c :: blk))
        as Hsk.
      destruct (_finalize_block constants (ls_circuits st) (c :: blk))
        as [cs' comps']. simpl in Hsk. simpl.
      rewrite !skeletons_app, app_nil_r, skeletons_parts, Hsk.
      rewrite <- app_assoc. f_equal.
      change (Some c :: (Some <$> blk)) with (Some <$> (c :: blk)).
      rewrite skeletons_parts. reflexivity.
Qed.

Lemma skeletons_foldl (constants : gmap string entry)
    (l : list (option Component)) (st : loop_state) :
  (skeletons (ls_items (foldl (build_step constants) st l))
   ++ skeletons (Some <$> ls_block (foldl (build_step constants) st l))
   = (skeletons (ls_items st) ++ skeletons (Some <$> ls_block st))
     ++ skeletons l)%list.
Proof.
  revert st. induction l as [|item l IH]; intros st; simpl.
  - rewrite app_nil_r. reflexivity.
  - rewrite IH, skeletons_step, <- app_assoc. reflexivity.
Qed.

Lemma removelast_fmap {A B : Type} (f : A -> B) (l : list A) :
  removelast (f <$> l) = f <$> removelast l.
Proof.
  induction l as [|x [|y l] IH]; simpl; try reflexivity.
  simpl in IH. rewrite IH. reflexivity.
Qed.

(** [build] loses, adds and reorders no part: the items it leaves are the
    items it was given, gap for gap and part for part, each part with the
    label, the type and the index it had. *)
Theorem build_keeps_parts_in_order (b : builder) :
  skeletons (items (build_blocks b)) = skeletons (items b).
Proof.
  unfold build_blocks.
  set (st := foldl (build_step (constants b)) (LoopState (circuits b) [] [])
               (items b ++ [None])).
  assert (Hblock : ls_block st = []).
  { subst st. rewrite foldl_app. apply BuilderFacts.block_after_gap. }
  assert (H : skeletons (ls_items st) = skeletons (items b ++ [None])).
  { pose proof (skeletons_foldl (constants b) (items b ++ [None])
                  (LoopState (circuits b) [] [])) as H.
    fold st in H. rewrite Hblock in H.
    change (skeletons (Some <$> [])) with (@nil (option (string * string * nat)))
      in H.
    rewrite app_nil_r in H. exact H. }
  change (items (mkBuilder (constants b) (removelast (ls_items st))
                   (ls_circuits st)))
    with (removelast (ls_items st)).
  unfold skeletons in *. rewrite <- removelast_fmap, H, fmap_app.
  apply removelast_last.
Qed.

Lemma any_cds_app (l1 l2 : list Component) :
  any_cds (l1 ++ l2) = any_cds l1 || any_cds l2.
Proof. unfold any_cds. apply existsb_app. Qed.

Lemma seen_cds_step (constants : gmap string entry) (st : loop_state)
    (item : option Component) :
  seen_cds (build_step constants st item)
  = seen_cds st || any_cds_item [item].
Proof.
  unfold seen_cds. destruct item as [comp|]; simpl.
  - rewrite any_cds_app. simpl. rewrite !orb_false_r, orb_assoc. reflexivity.
  - rewrite orb_false_r.
    destruct (ls_block st) as [|c blk] eqn:Hblk; simpl; [reflexivity|].
    unfold _finalize_block.
    rewrite BuilderFacts.any_cds_assign_parameters.
    destruct (any_cds (c :: blk)) eqn:Hcds; simpl.
    + simpl in Hcds. rewrite Hcds, orb_true_r.
      destruct (ls_circuits st); reflexivity.
    + simpl in Hcds. rewrite Hcds. reflexivity.
Qed.

Lemma seen_cds_foldl (constants : gmap string entry)
    (l : list (option Component)) (st : loop_state) :
  seen_cds (foldl (build_step constants) st l)
  = seen_cds st || any_cds_item l.
Proof.
  revert st. induction l as [|item l IH]; intros st; simpl.
  - rewrite orb_false_r. reflexivity.
  - rewrite IH, seen_cds_step. simpl.
    rewrite orb_false_r, orb_assoc. reflexivity.
Qed.

(** A fresh builder produces no circuit exactly when none of its items is a
    CDS; one CDS anywhere is enough for at least one circuit. *)
Theorem no_circuit_iff_no_cds (registry : gmap string entry)
    (parts : list (option Component)) :
  circuits (build_blocks (new_builder registry parts)) = []
  <-> any_cds_item parts = false.
Proof.
  unfold build_blocks, new_builder.
  change (constants (mkBuilder registry parts [])) with registry.
  change (items (mkBuilder registry parts [])) with parts.
  change (circuits (mkBuilder registry parts [])) with (@nil circuit).
  set (st := foldl (build_step registry) (LoopState [] [] []) (parts ++ [None])).
  change (circuits (mkBuilder registry (removelast (ls_items st))
                      (ls_circuits st)))
    with (ls_circuits st).
  assert (Hblock : ls_block st = []).
  { subst st. rewrite foldl_app. apply BuilderFacts.block_after_gap. }
  pose proof (seen_cds_foldl registry (parts ++ [None]) (LoopState [] [] []))
    as H.
  fold st in H. unfold seen_cds in H. rewrite Hblock in H. simpl in H.
  rewrite orb_false_r in H.
  assert (Hitems : any_cds_item (parts ++ [None]) = any_cds_item parts).
  { unfold any_cds_item. rewrite existsb_app. simpl. apply orb_false_r. }
  rewrite Hitems in H. rewrite <- H.
  destruct (ls_circuits st); split; intros; try reflexivity; discriminate.
Qed.

End BuilderMore.

(** ** The right-hand side: lengths, foreign sources, unregulated genes *)

Module OdeMore.
Import Builder Ode.

Lemma rhs_loop_lengths (cds_ids : list string)
    (params : gmap string cds_parameters)
    (reg_map : gmap string (list ode_regulation)) (p : list float)
    (todo : list string) (i : nat) (hill : option float)
    (dpdt out : list float) :
  rhs_loop cds_ids params reg_map p todo i hill dpdt = Some out ->
  length out = length dpdt
  /\ (todo <> [] -> (i + length todo <= length p)%nat).
Proof.
  revert i hill dpdt. induction todo as [|cds_id rest IH]; intros i hill dpdt H.
  - simpl in H. injection H as <-. split; [reflexivity|]. intros Hn. contradiction.
  - simpl in H.
    destruct (params !! cds_id) as [pars|]; [|discriminate]. simpl in H.
    destruct (f_vals_loop cds_ids p (default [] (reg_map !! cds_id)) hill [])
      as [[hill' f_vals]|]; [|discriminate]. simpl in H.
    destruct (p !! i) as [p_i|] eqn:Hp; [|discriminate]. simpl in H.
    destruct (dpdt !! i) as [d_i|]; [|discriminate]. simpl in H.
    apply IH in H as [Hlen Hrest]. rewrite length_insert in Hlen.
    split; [exact Hlen|]. intros _.
    apply lookup_lt_Some in Hp. simpl.
    destruct rest as [|r rest']; [simpl; lia|].
    assert (r :: rest' <> []) as Hne by discriminate.
    specialize (Hrest Hne). simpl in *. lia.
Qed.

(** When [rhs] returns, the state vector has an entry for every CDS of
    [cds_list], and the derivative it returns has the state's length: a
    state shorter than the list of CDS makes it raise. *)
Theorem rhs_lengths (cds_ids : list string)
    (params : gmap string cds_parameters)
    (reg_map : gmap string (list ode_regulation)) (p dpdt : list float) :
  rhs cds_ids params reg_map p = Some dpdt ->
  length dpdt = length p /\ (length cds_ids <= length p)%nat.
Proof.
  unfold rhs. intros H. apply rhs_loop_lengths in H as [Hlen Hle].
  rewrite length_replicate in Hlen. split; [exact Hlen|].
  destruct cds_ids as [|c rest]; [simpl; lia|].
  assert (c :: rest <> []) as Hne by discriminate.
  specialize (Hle Hne). simpl in *. lia.
Qed.

Lemma rhs_lengths_witness :
  length [5.04%float] = length [0.01%float]
  /\ (length ["cds_2"] <= length [0.01%float])%nat.
Proof.
  apply (rhs_lengths ["cds_2"] {[ "cds_2" := mkParams 0.05 5 1 0 ]} ∅).
  vm_compute. reflexivity.
Defined.

Lemma index_of_absent (x : string) (l : list string) :
  x ∉ l -> index_of x l = None.
Proof.
  induction l as [|y l IH]; intros H; simpl; [reflexivity|].
  destruct (String.eqb y x) eqn:Hyx.
  - apply String.eqb_eq in Hyx. subst y. exfalso. apply H. left.
  - rewrite IH; [reflexivity|]. intros Hin. apply H. right. exact Hin.
Qed.

Lemma f_vals_loop_foreign_source (cds_ids : list string) (p : list float)
    (regs : list ode_regulation) (reg : ode_regulation) (hill : option float)
    (f_vals : list float) :
  reg ∈ regs ->
  (forall src, source reg = Some src -> src ∉ cds_ids) ->
  f_vals_loop cds_ids p regs hill f_vals = None.
Proof.
  intros Hin Hsrc. revert hill f_vals.
  induction regs as [|r regs IH]; intros hill f_vals; [inversion Hin|].
  simpl. apply elem_of_cons in Hin as [<-|Hin].
  - destruct (source reg) as [src|] eqn:Hs; [|reflexivity]. simpl.
    rewrite (index_of_absent src cds_ids (Hsrc src eq_refl)). reflexivity.
  - destruct (source r) as [src|]; [|reflexivity]. simpl.
    destruct (index_of src cds_ids) as [idx|]; [|reflexivity]. simpl.
    destruct (p !! idx) as [conc|]; [|reflexivity]. simpl.
    match goal with
    | |- (?h ≫= _) = None => destruct h as [hv|]; [|reflexivity]
    end.
    simpl. apply IH, Hin.
Qed.

Lemma rhs_loop_foreign_source (cds_ids : list string)
    (params : gmap string cds_parameters)
    (reg_map : gmap string (list ode_regulation)) (p : list float)
    (todo : list string) (cds_id : string) (regs : list ode_regulation)
    (reg : ode_regulation) (i : nat) (hill : option float) (dpdt : list float) :
  cds_id ∈ todo -> reg_map !! cds_id = Some regs -> reg ∈ regs ->
  (forall src, source reg = Some src -> src ∉ cds_ids) ->
  rhs_loop cds_ids params reg_map p todo i hill dpdt = None.
Proof.
  intros Hin Hregs Hreg Hsrc. revert i hill dpdt.
  induction todo as [|c rest IH]; intros i hill dpdt; [inversion Hin|].
  simpl. destruct (params !! c) as [pars|]; [|reflexivity]. simpl.
  apply elem_of_cons in Hin as [<-|Hin].
  - rewrite Hregs. simpl.
    rewrite (f_vals_loop_foreign_source cds_ids p regs reg hill [] Hreg Hsrc).
    reflexivity.
  - destruct (f_vals_loop cds_ids p (default [] (reg_map !! c)) hill [])
      as [[hill' f_vals]|]; [|reflexivity]. simpl.
    destruct (p !! i) as [p_i|]; [|reflexivity]. simpl.
    destruct (dpdt !! i) as [d_i|]; [|reflexivity]. simpl.
    apply IH, Hin.
Qed.

(** A regulation that [reg_map] holds for a CDS of [cds_list] and whose
    source is no CDS of the list, a record without a source included,
    makes [rhs] raise for every state: [cds_list.index] finds no index. *)
Theorem rhs_raises_on_foreign_source (cds_ids : list string)
    (params : gmap string cds_parameters)
    (reg_map : gmap string (list ode_regulation)) (p : list float)
    (cds_id : string) (regs : list ode_regulation) (reg : ode_regulation) :
  cds_id ∈ cds_ids -> reg_map !! cds_id = Some regs -> reg ∈ regs ->
  (forall src, source reg = Some src -> src ∉ cds_ids) ->
  rhs cds_ids params reg_map p = None.
Proof.
  intros Hin Hregs Hreg Hsrc. unfold rhs.
  eapply rhs_loop_foreign_source; eassumption.
Qed.

Lemma rhs_raises_on_foreign_source_witness :
  rhs ["cds_2"] {[ "cds_2" := mkParams 0.05 5 1 0 ]}
    {[ "cds_2" := [mkOdeRegulation None "constitutive" (mkHill 0.5 2)] ]}
    [0.01%float]
  = None.
Proof.
  apply (rhs_raises_on_foreign_source ["cds_2"] _ _ _ "cds_2"
           [mkOdeRegulation None "constitutive" (mkHill 0.5 2)]
           (mkOdeRegulation None "constitutive" (mkHill 0.5 2))).
  - left.
  - reflexivity.
  - left.
  - intros src H. discriminate H.
Defined.

Lemma rhs_loop_keeps_written (cds_ids : list string)
    (params : gmap string cds_parameters)
    (reg_map : gmap string (list ode_regulation)) (p : list float)
    (todo : list string) (i : nat) (hill : option float)
    (dpdt out : list float) (k : nat) :
  rhs_loop cds_ids params reg_map p todo i hill dpdt = Some out ->
  (k < i)%nat -> out !! k = dpdt !! k.
Proof.
  revert i hill dpdt. induction todo as [|cds_id rest IH]; intros i hill dpdt H Hk.
  - simpl in H. injection H as <-. reflexivity.
  - simpl in H.
    destruct (params !! cds_id) as [pars|]; [|discriminate]. simpl in H.
    destruct (f_vals_loop cds_ids p (default [] (reg_map !! cds_id)) hill [])
      as [[hill' f_vals]|]; [|discriminate]. simpl in H.
    destruct (p !! i) as [p_i|]; [|discriminate]. simpl in H.
    destruct (dpdt !! i) as [d_i|]; [|discriminate]. simpl in H.
    rewrite (IH _ _ _ H) by lia. apply list_lookup_insert_ne. lia.
Qed.

Lemma rhs_loop_unregulated (cds_ids : list string)
    (params : gmap string cds_parameters)
    (reg_map : gmap string (list ode_regulation)) (p : list float)
    (todo : list string) (i : nat) (hill : option float)
    (dpdt out : list float) (j : nat) (cds_id : string) :
  rhs_loop cds_ids params reg_map p todo i hill dpdt = Some out ->
  todo !! j = Some cds_id ->
  default [] (reg_map !! cds_id) = [] ->
  exists pars p_i,
    params !! cds_id = Some pars /\ p !! (i + j)%nat = Some p_i
    /\ out !! (i + j)%nat
       = Some (k0 pars + kprod pars * 1 - degradation pars * p_i)%float.
Proof.
  revert i hill dpdt j.
  induction todo as [|c rest IH]; intros i hill dpdt j H Hj Hregs;
    [rewrite lookup_nil in Hj; discriminate|].
  simpl in H.
  destruct (params !! c) as [pars|] eqn:Hpars; [|discriminate]. simpl in H.
  destruct (f_vals_loop cds_ids p (default [] (reg_map !! c)) hill [])
    as [[hill' f_vals]|] eqn:Hf; [|discriminate]. simpl in H.
  destruct (p !! i) as [p_i|] eqn:Hp; [|discriminate]. simpl in H.
  destruct (dpdt !! i) as [d_i|] eqn:Hd; [|discriminate]. simpl in H.
  destruct j as [|j].
  - simpl in Hj. injection Hj as ->. rewrite Hregs in Hf. simpl in Hf.
    injection Hf as <- <-. rewrite Nat.add_0_r.
    exists pars, p_i. split; [exact Hpars|]. split; [exact Hp|].
    rewrite (rhs_loop_keeps_written _ _ _ _ _ _ _ _ _ i H) by lia.
    apply list_lookup_insert_eq. apply lookup_lt_Some in Hd. exact Hd.
  - simpl in Hj. replace (i + S j)%nat with (S i + j)%nat by lia.
    eapply IH; eassumption.
Qed.

(** A CDS for which [reg_map] holds no regulation gets, whenever [rhs]
    returns, the rate [k0 + kprod * 1.0 - degradation * p[i]] at its own
    index: its production term is not weighed by any factor. *)
Theorem rhs_unregulated_rate (cds_ids : list string)
    (params : gmap string cds_parameters)
    (reg_map : gmap string (list ode_regulation)) (p dpdt : list float)
    (i : nat) (cds_id : string) :
  rhs cds_ids params reg_map p = Some dpdt ->
  cds_ids !! i = Some cds_id ->
  default [] (reg_map !! cds_id) = [] ->
  exists pars p_i,
    params !! cds_id = Some pars /\ p !! i = Some p_i
    /\ dpdt !! i
       = Some (k0 pars + kprod pars * 1 - degradation pars * p_i)%float.
Proof.
  unfold rhs. intros H Hi Hregs.
  exact (rhs_loop_unregulated _ _ _ _ _ 0 _ _ _ i cds_id H Hi Hregs).
Qed.

Lemma rhs_unregulated_rate_witness :
  exists pars p_i,
    ({[ "cds_2" := mkParams 0.05 5 1 0 ]} : gmap string cds_parameters)
      !! "cds_2" = Some pars
    /\ [0.01%float] !! 0%nat = Some p_i
    /\ [5.04%float] !! 0%nat
       = Some (k0 pars + kprod pars * 1 - degradation pars * p_i)%float.
Proof.
  apply (rhs_unregulated_rate ["cds_2"] {[ "cds_2" := mkParams 0.05 5 1 0 ]} ∅
           [0.01%float] [5.04%float] 0 "cds_2").
  - vm_compute. reflexivity.
  - reflexivity.
  - reflexivity.
Defined.

End OdeMore.

(** ** The dial sent by the front end *)

Module FrontendMore.
Import Overrides Frontend FrontendNotions.

Lemma js_get_set (key k : string) (v : float) (obj : list (string * float)) :
  js_get key (js_set k v obj)
  = if String.eqb k key then Some v else js_get key obj.
Proof.
  induction obj as [|[k' v'] obj IH]; simpl.
  - reflexivity.
  - destruct (String.eqb k' k) eqn:Hk'; simpl.
    + apply String.eqb_eq in Hk'. subst k'.
      destruct (String.eqb k key); reflexivity.
    + destruct (String.eqb k' key) eqn:Hkey; [|exact IH].
      destruct (String.eqb k key) eqn:Hk; [|reflexivity].
      apply String.eqb_eq in Hkey, Hk. subst. rewrite String.eqb_refl in Hk'.
      discriminate.
Qed.

Lemma js_get_assignments (key : string) (assignments : list (string * float))
    (obj : list (string * float)) :
  js_get key (foldl (fun a kv => js_set kv.1 kv.2 a) obj assignments)
  = match last_assigned key assignments with
    | Some v => Some v
    | None => js_get key obj
    end.
Proof.
  unfold last_assigned.
  induction assignments as [|[k v] assignments IH] using rev_ind; simpl.
  - reflexivity.
  - rewrite !foldl_app. simpl. rewrite js_get_set.
    destruct (String.eqb k key); [reflexivity|exact IH].
Qed.

Lemma collect_inputs_assignments (inputs : list number_input)
    (obj : list (string * float)) :
  collect_inputs inputs obj
  = foldl (fun a kv => js_set kv.1 kv.2 a) obj (omap input_assignment inputs).
Proof.
  unfold collect_inputs. revert obj.
  induction inputs as [|input inputs IH]; intros obj; simpl; [reflexivity|].
  rewrite IH. unfold input_assignment.
  destruct (negb (PrimFloat.is_nan (in_value input))
            && negb (String.eqb
                       (if String.eqb (in_name input) "" then in_id input
                        else in_name input) "")); reflexivity.
Qed.

Lemma collect_component_parameters_assignments
    (cellboard : list (string * list board_component))
    (obj : list (string * float)) :
  collect_component_parameters cellboard obj
  = foldl (fun a kv => js_set kv.1 kv.2 a) obj (component_assignments cellboard).
Proof.
  unfold collect_component_parameters, component_assignments. revert obj.
  induction cellboard as [|[ty comps] cellboard IH]; intros obj; simpl;
    [reflexivity|].
  rewrite foldl_app, IH. f_equal. clear IH. revert obj.
  induction comps as [|comp comps IHc]; intros obj; simpl; [reflexivity|].
  rewrite foldl_app, IHc. f_equal.
  destruct (cb_parameters comp); reflexivity.
Qed.

(** The dial that [collectDialParameters] builds holds, for every key, the
    value assigned to it last: the form inputs are assigned first, those
    without a number or without a name being skipped, and the parameters of
    the placed components after them in cellboard order.  A component
    parameter therefore replaces a form input of the same name. *)
Theorem collected_dial_holds_last_assignment (inputs : list number_input)
    (cellboard : list (string * list board_component)) (key : string) :
  js_get key (collectDialParameters inputs cellboard)
  = last_assigned key
      (omap input_assignment inputs ++ component_assignments cellboard).
Proof.
  unfold collectDialParameters.
  rewrite collect_component_parameters_assignments,
    collect_inputs_assignments, <- foldl_app, js_get_assignments.
  destruct (last_assigned key
              (omap input_assignment inputs ++ component_assignments cellboard));
    reflexivity.
Qed.

End FrontendMore.

(** ** The board state: removal and numbering *)

Module BoardMore.
Import Board Designer.

Lemma splice_first_Some (pred : component -> bool) (arr arr' : list component)
    (removed : component) :
  splice_first pred arr = (arr', Some removed) ->
  exists before after,
    arr = (before ++ removed :: after)%list
    /\ arr' = (before ++ after)%list
    /\ pred removed = true.
Proof.
  unfold splice_first.
  destruct (list_find _ arr) as [[index found]|] eqn:Hfind; [|discriminate].
  intros H. inversion H; subst; clear H.
  apply list_find_Some in Hfind as (Hlookup & Hpred & _).
  apply list_elem_of_split_length in Hlookup as (before & after & -> & ->).
  exists before, after. split; [reflexivity|]. split; [|exact Hpred].
  apply delete_middle.
Qed.


Lemma cellboard_remove_Some (cx cy : Z) (cb cb' : list (string * list component))
    (removed : component) :
  cellboard_remove cx cy cb = (cb', Some removed) ->
  exists front k before after back,
    cb = (front ++ (k, before ++ removed :: after) :: back)%list
    /\ cb' = (front ++ (k, before ++ after) :: back)%list
    /\ at_strict cx cy removed = true.
Proof.
  revert cb'. induction cb as [|[k comps] cb IH]; intros cb'; simpl.
  - discriminate.
  - destruct (splice_first (at_strict cx cy) comps) as [comps' [r|]] eqn:Hsplice.
    + intros H. inversion H; subst; clear H.
      apply splice_first_Some in Hsplice as (before & after & -> & -> & Hpred).
      exists [], k, before, after, cb. auto.
    + destruct (cellboard_remove cx cy cb) as [rest' r] eqn:Hrest.
      intros H. inversion H; subst; clear H.
      destruct (IH _ eq_refl) as (front & k' & before & after & back & -> & -> & Hpred).
      exists ((k, comps) :: front), k', before, after, back. auto.
Qed.


Lemma stored_middle (front : list (string * list component)) (k : string)
    (before after : list component) (removed : component)
    (back : list (string * list component)) :
  sum_list_with (fun entry : string * list component => length entry.2)
    (front ++ (k, before ++ removed :: after) :: back)%list
  = S (sum_list_with (fun entry : string * list component => length entry.2)
         (front ++ (k, before ++ after) :: back)%list).
Proof.
  rewrite !sum_list_with_app. simpl. rewrite !length_app. simpl. lia.
Qed.

(** [removeComponent] takes at most one object out of the two stores, an
    object whose coordinates are strictly the given numbers, and clears the
    cell's classes; it never lowers a count of [state.componentCounts].
    When it returns [null] the state is as it was. *)
Theorem remove_takes_one_matching_object (st : board_state) (cx cy : Z) :
  componentCounts (removeComponent st cx cy).1 = componentCounts st
  /\ match (removeComponent st cx cy).2 with
     | Some removed =>
         at_strict cx cy removed = true
         /\ stored st = S (stored (removeComponent st cx cy).1)
         /\ cells (removeComponent st cx cy).1 !! (cx, cy)
            = Some (mkClasses false false)
     | None => (removeComponent st cx cy).1 = st
     end.
Proof.
  unfold removeComponent.
  destruct (cells st !! (cx, cy)) as [cls|] eqn:Hcell; simpl; [|auto].
  destruct (splice_first (at_strict cx cy) (placedComponents st))
    as [placed' [removed|]] eqn:Hplaced; simpl.
  - split; [reflexivity|].
    apply splice_first_Some in Hplaced as (before & after & Hbefore & -> & Hpred).
    split; [exact Hpred|]. split; [|apply lookup_insert_eq].
    unfold stored. simpl. rewrite Hbefore, !length_app. simpl. lia.
  - destruct (cellboard_remove cx cy (cellboard st)) as [cb' [removed|]]
      eqn:Hcb; simpl; [|auto].
    split; [reflexivity|].
    apply cellboard_remove_Some in Hcb
      as (front & k & before & after & back & Hfront & -> & Hpred).
    split; [exact Hpred|]. split; [|apply lookup_insert_eq].
    unfold stored. simpl. rewrite Hfront, stored_middle. lia.
Qed.


Lemma removeComponent_counts (st : board_state) (cx cy : Z) :
  componentCounts (removeComponent st cx cy).1 = componentCounts st.
Proof.
  unfold removeComponent.
  destruct (cells st !! (cx, cy)); [|reflexivity].
  destruct (splice_first _ _) as [placed' [removed|]]; [reflexivity|].
  destruct (cellboard_remove _ _ _) as [cb' [removed|]]; reflexivity.
Qed.

Lemma removeComponent_cell (st : board_state) (cx cy : Z) :
  is_Some (cells st !! (cx, cy)) ->
  is_Some (cells (removeComponent st cx cy).1 !! (cx, cy)).
Proof.
  intros Hcell. unfold removeComponent.
  destruct (cells st !! (cx, cy)) eqn:Hlookup;
    [|destruct Hcell; discriminate].
  destruct (splice_first _ _) as [placed' [removed|]]; simpl.
  - rewrite lookup_insert_eq. eauto.
  - destruct (cellboard_remove _ _ _) as [cb' [removed|]]; simpl.
    + rewrite lookup_insert_eq. eauto.
    + rewrite Hlookup. eauto.
Qed.

Lemma selected_select_component (st : board_state) (ty : string) :
  selected st = Some ty ->
  forall st', selected (select_component st' ty) = Some ty.
Proof.
  unfold selected, select_component. simpl.
  destruct (currentComponent st) as [ty'|]; [|discriminate].
  destruct (String.eqb ty' "" || String.eqb ty' "undefined") eqn:Hty;
    [discriminate|].
  intros H st'. inversion H; subst. rewrite Hty. reflexivity.
Qed.

Lemma cell_click_selected (st : board_state) (cx cy : Z) (fresh_id : float)
    (ty : string) (cls : cell_classes) :
  cells st !! (cx, cy) = Some cls -> selected st = Some ty ->
  cell_click st cx cy fresh_id
  = mkState None "norm"
      (without_existing st cx cy cls ++ [new_component st cx cy fresh_id ty])
      (bump (replace_first_space (toLowerCase ty)) (componentCounts st)).1
      (cellboard_push ty (new_component st cx cy fresh_id ty) (cellboard st))
      (<[(cx, cy) := mkClasses false true]> (cells st)).
Proof. intros Hcell Hsel. unfold cell_click. rewrite Hcell, Hsel. reflexivity. Qed.

Lemma bump_again (key : string) (counts : list (string * nat)) :
  (bump key (bump key counts).1).2 = S (bump key counts).2.
Proof.
  induction counts as [|[k v] counts IH]; simpl.
  - rewrite String.eqb_refl. reflexivity.
  - destruct (String.eqb k key) eqn:Hk; simpl.
    + rewrite Hk. simpl. destruct v; reflexivity.
    + destruct (bump key counts) as [rest v'] eqn:Hrest. simpl.
      rewrite Hk. simpl in IH.
      destruct (bump key rest) as [rest' v''] eqn:Hrest'. simpl in *.
      exact IH.
Qed.

(** A number given to a component is not given again after the component
    is removed: when a component placed by a click is removed and the same
    type is selected and placed again, the new component carries the next
    number. *)
Theorem component_numbers_not_reused
    (st : board_state) (cx cy : Z) (id1 id2 : float) (ty : string)
    (cls : cell_classes) :
  cells st !! (cx, cy) = Some cls ->
  selected st = Some ty ->
  let st1 := cell_click st cx cy id1 in
  let st2 := (removeComponent st1 cx cy).1 in
  let st3 := cell_click (select_component st2 ty) cx cy id2 in
  exists first second,
    last (placedComponents st1) = Some first
    /\ last (placedComponents st3) = Some second
    /\ type first = ty /\ type second = ty
    /\ number second = S (number first).
Proof.
  intros Hcell Hsel st1 st2 st3.
  assert (Hst1 := cell_click_selected st cx cy id1 ty cls Hcell Hsel).
  fold st1 in Hst1.
  assert (Hcell2 : is_Some (cells (select_component st2 ty) !! (cx, cy))).
  { simpl. apply removeComponent_cell. rewrite Hst1. simpl.
    rewrite lookup_insert_eq. eauto. }
  destruct Hcell2 as [cls2 Hcell2].
  assert (Hst3 := cell_click_selected (select_component st2 ty) cx cy id2 ty
                    cls2 Hcell2 (selected_select_component st ty Hsel st2)).
  fold st3 in Hst3.
  exists (new_component st cx cy id1 ty),
         (new_component (select_component st2 ty) cx cy id2 ty).
  rewrite Hst1 at 1. rewrite Hst3. simpl. rewrite !last_snoc.
  repeat split; try reflexivity.
  unfold st2. rewrite removeComponent_counts, Hst1. simpl. apply bump_again.
Qed.

Lemma component_numbers_not_reused_witness :
  exists first second,
    last (placedComponents (cell_click fresh_board 0 0 1%float)) = Some first
    /\ last (placedComponents
               (cell_click
                  (select_component
                     (removeComponent (cell_click fresh_board 0 0 1%float) 0 0).1
                     "Promoter") 0 0 2%float)) = Some second
    /\ type first = "Promoter" /\ type second = "Promoter"
    /\ number second = S (number first).
Proof.
  apply (component_numbers_not_reused fresh_board 0 0 1%float 2%float
           "Promoter" (mkClasses false false)); reflexivity.
Defined.

End BoardMore.

(** ** Board population from the hardware log *)

Module HardwareMore.
Import Board Hardware Designer.

Lemma at_strict_string_coordinates (cx cy : Z) (comp : component) :
  x comp = Str cx -> at_strict cx cy comp = false.
Proof. intros Hx. unfold at_strict. rewrite Hx. reflexivity. Qed.

(** A component that [createPlacedComponent] puts on the board cannot be
    removed with the right mouse button: its coordinates are strings, the
    handler passes numbers, and [removeComponent] compares with [===].  When
    no other stored object has the cell's coordinates, [removeComponent]
    returns [null] and leaves the state, and so the marked cell, as it
    is. *)
Theorem hardware_component_survives_removal
    (st : board_state) (cx cy : Z) (fresh_id : float)
    (component : parsed_component) :
  Forall (fun comp => at_strict cx cy comp = false) (placedComponents st) ->
  (cellboard_remove cx cy (cellboard st)).2 = None ->
  removeComponent (createPlacedComponent st cx cy fresh_id component) cx cy
  = (createPlacedComponent st cx cy fresh_id component, None).
Proof.
  intros Hplaced Hcb. unfold removeComponent.
  change (cells (createPlacedComponent st cx cy fresh_id component))
    with (<[(cx, cy) := mkClasses true true]> (cells st)).
  rewrite lookup_insert_eq.
  destruct (splice_first (at_strict cx cy)
              (placedComponents
                 (createPlacedComponent st cx cy fresh_id component)))
    as [placed' [removed|]] eqn:Hsplice.
  - exfalso.
    apply BoardMore.splice_first_Some in Hsplice
      as (before & after & Hsplit & _ & Hpred).
    assert (Hin : removed ∈ placedComponents
                    (createPlacedComponent st cx cy fresh_id component)).
    { rewrite Hsplit. set_solver. }
    simpl in Hin. apply elem_of_app in Hin as [Hin|Hin].
    + rewrite Forall_forall in Hplaced. specialize (Hplaced _ Hin). congruence.
    + apply list_elem_of_singleton in Hin. subst removed.
      rewrite at_strict_string_coordinates in Hpred by reflexivity.
      discriminate.
  - change (cellboard (createPlacedComponent st cx cy fresh_id component))
      with (cellboard st).
    destruct (cellboard_remove cx cy (cellboard st)) as [cb' [removed|]];
      [discriminate|reflexivity].
Qed.

Lemma hardware_component_survives_removal_witness :
  removeComponent
    (createPlacedComponent fresh_board 0 0 1%float
       (mkParsed "promotor_a" "Promoter" "A" "norm")) 0 0
  = (createPlacedComponent fresh_board 0 0 1%float
       (mkParsed "promotor_a" "Promoter" "A" "norm"), None).
Proof.
  apply (hardware_component_survives_removal fresh_board 0 0 1%float
           (mkParsed "promotor_a" "Promoter" "A" "norm")).
  - simpl. constructor.
  - reflexivity.
Defined.

(** The click handler, which compares with [==], does find such a
    component: a click that places a selected type on a cell filled by
    [createPlacedComponent] takes the hardware component out of
    [state.placedComponents] and puts the new one in its place. *)
Theorem click_replaces_hardware_component
    (st : board_state) (cx cy : Z) (id1 id2 : float)
    (component : parsed_component) (ty : string) :
  Forall (fun comp => at_loose cx cy comp = false) (placedComponents st) ->
  String.eqb ty "" || String.eqb ty "undefined" = false ->
  let st1 :=
    select_component (createPlacedComponent st cx cy id1 component) ty in
  placedComponents (cell_click st1 cx cy id2)
  = (placedComponents st ++ [new_component st1 cx cy id2 ty])%list.
Proof.
  intros Hplaced Hty st1.
  assert (Hcell : cells st1 !! (cx, cy) = Some (mkClasses true true)).
  { simpl. apply lookup_insert_eq. }
  assert (Hsel : selected st1 = Some ty).
  { unfold selected. simpl. rewrite Hty. reflexivity. }
  rewrite (BoardMore.cell_click_selected st1 cx cy id2 ty _ Hcell Hsel).
  simpl. f_equal. unfold without_existing. simpl.
  rewrite BoardFacts.splice_first_last; [reflexivity|exact Hplaced|].
  unfold at_loose. simpl. rewrite !Z.eqb_refl. reflexivity.
Qed.

Lemma click_replaces_hardware_component_witness :
  placedComponents
    (cell_click
       (select_component
          (createPlacedComponent fresh_board 0 0 1%float
             (mkParsed "promotor_a" "Promoter" "A" "norm")) "RBS")
       0 0 2%float)
  = ([] ++ [new_component
              (select_component
                 (createPlacedComponent fresh_board 0 0 1%float
                    (mkParsed "promotor_a" "Promoter" "A" "norm")) "RBS")
              0 0 2%float "RBS"])%list.
Proof.
  apply (click_replaces_hardware_component fresh_board 0 0 1%float 2%float
           (mkParsed "promotor_a" "Promoter" "A" "norm") "RBS").
  - simpl. constructor.
  - reflexivity.
Defined.


(** [parseComponentName] returns one of fourteen type names with the name
    as given, the gene of [extractGeneFromName] and the strength "norm".
    It never returns the type "Operator": the branch that would is placed
    after a [return null]. *)
Theorem parsed_component_shape (name : string) (component : parsed_component) :
  parseComponentName name = Some component ->
  p_type component ∈ parsed_types
  /\ p_type component <> "Operator"
  /\ p_name component = name
  /\ p_gene component = extractGeneFromName name
  /\ p_strength component = "norm".
Proof.
  unfold parseComponentName, recognised, parsed_types.
  intros H.
  repeat match type of H with
         | (if ?b then _ else _) = _ => destruct b
         end;
    inversion H; subst; simpl;
    (split; [set_solver|]); (split; [discriminate|]); auto.
Qed.

Lemma parsed_component_shape_witness :
  p_type (mkParsed "repressor_b_start" "Repressor Start" "B" "norm")
    ∈ parsed_types
  /\ p_type (mkParsed "repressor_b_start" "Repressor Start" "B" "norm")
     <> "Operator"
  /\ p_name (mkParsed "repressor_b_start" "Repressor Start" "B" "norm")
     = "repressor_b_start"
  /\ p_gene (mkParsed "repressor_b_start" "Repressor Start" "B" "norm")
     = extractGeneFromName "repressor_b_start"
  /\ p_strength (mkParsed "repressor_b_start" "Repressor Start" "B" "norm")
     = "norm".
Proof.
  apply (parsed_component_shape "repressor_b_start"
           (mkParsed "repressor_b_start" "Repressor Start" "B" "norm")).
  reflexivity.
Defined.

Lemma gene_match_letter (s : string) (c : Ascii.ascii) :
  gene_match s = Some c -> is_letter c = true.
Proof.
  induction s as [|u tail IH]; simpl; [discriminate|].
  destruct tail as [|d rest]; [discriminate|].
  destruct (Ascii.eqb u "_" && is_letter d
            && match rest with
               | EmptyString => true
               | String e _ => Ascii.eqb e "_"
               end) eqn:Htest.
  - intros H. inversion H; subst.
    apply andb_true_iff in Htest as [Htest _].
    apply andb_true_iff in Htest as [_ Htest]. exact Htest.
  - exact IH.
Qed.

Lemma upper_char_letter (c : Ascii.ascii) :
  is_letter c = true ->
  (65 <= nat_of_ascii (upper_char c) <= 90)%nat.
Proof.
  unfold is_letter, upper_char. intros H.
  destruct ((97 <=? nat_of_ascii c)%nat && (nat_of_ascii c <=? 122)%nat)
    eqn:Hlow.
  - apply andb_true_iff in Hlow as [H1 H2].
    apply Nat.leb_le in H1, H2.
    rewrite nat_ascii_embedding by lia. lia.
  - rewrite orb_false_r in H. apply andb_true_iff in H as [H1 H2].
    apply Nat.leb_le in H1, H2. lia.
Qed.

(** The gene that [extractGeneFromName] gives is "1" or one capital
    letter from A to Z. *)
Theorem gene_is_capital_or_one (name : string) :
  extractGeneFromName name = "1"
  \/ exists c, extractGeneFromName name = String c EmptyString
               /\ (65 <= nat_of_ascii c <= 90)%nat.
Proof.
  unfold extractGeneFromName.
  destruct (gene_match name) as [c|] eqn:Hmatch; [right|left; reflexivity].
  exists (upper_char c). split; [reflexivity|].
  apply upper_char_letter. eapply gene_match_letter. exact Hmatch.
Qed.

(** A label that begins with the word "promoter" and does not hold the
    spelling "promotor" is not recognised: [parseComponentName] returns
    [null] for it, so the hardware path places no component for it. *)
Theorem promoter_spelling_not_recognised (name rest : string) :
  trim (toLowerCase name) = "promoter" ++ rest ->
  includes "promotor" (trim (toLowerCase name)) = false ->
  parseComponentName name = None.
Proof.
  intros Hclean Hspelling. unfold parseComponentName.
  rewrite Hspelling, Hclean. simpl.
  destruct (includes "_start" _), (includes "_end" _); reflexivity.
Qed.

Lemma promoter_spelling_not_recognised_witness :
  parseComponentName "Promoter_a" = None.
Proof.
  apply (promoter_spelling_not_recognised "Promoter_a" "_a"); reflexivity.
Defined.

(** The board cell of a channel of MUX A or B, read row by row on the
    board's eight columns, has the index that the back end computes as
    [global_idx]. *)
Theorem board_cell_is_global_idx (mux_chr : Ascii.ascii) (channel : Z) :
  mux_chr = "A"%char \/ mux_chr = "B"%char ->
  (0 <= channel < 16)%Z ->
  let cell := board_cell (String mux_chr EmptyString) channel in
  (0 <= cell.1 < 8)%Z /\ (0 <= cell.2 < 4)%Z
  /\ (cell.2 * 8 + cell.1)%Z = global_idx mux_chr channel.
Proof.
  intros [-> | ->] Hchannel; unfold board_cell, linearPosition, global_idx;
    simpl String.eqb; cbv iota; simpl fst; simpl snd;
    change (Z.of_nat (nat_of_ascii "A")) with 65%Z;
    try change (Z.of_nat (nat_of_ascii "B")) with 66%Z.
  - pose proof (Z.mod_pos_bound channel 8 ltac:(lia)).
    pose proof (Z.div_mod channel 8 ltac:(lia)).
    assert (0 <= channel / 8 < 4)%Z
      by (split; [apply Z.div_pos; lia|apply Z.div_lt_upper_bound; lia]).
    lia.
  - pose proof (Z.mod_pos_bound (channel + 16) 8 ltac:(lia)).
    pose proof (Z.div_mod (channel + 16) 8 ltac:(lia)).
    assert (0 <= (channel + 16) / 8 < 4)%Z
      by (split; [apply Z.div_pos; lia|apply Z.div_lt_upper_bound; lia]).
    lia.
Qed.

Lemma board_cell_is_global_idx_witness :
  (0 <= (board_cell "B" 3).1 < 8)%Z /\ (0 <= (board_cell "B" 3).2 < 4)%Z
  /\ ((board_cell "B" 3).2 * 8 + (board_cell "B" 3).1)%Z
     = global_idx "B"%char 3.
Proof.
  apply (board_cell_is_global_idx "B"%char 3); [right; reflexivity|lia].
Defined.

End HardwareMore.

(** ** Drag and drop, and clearing the board *)

Module DesignerMore.
Import Board Designer.














End DesignerMore.
